(** * Tabular temporal-difference control: SARSA, Q-learning, double Q-learning

    A shallow embedding of [6. Temporal Difference Learning/algorithms.py].

    Modelling choices.
    - numpy's float64 entries are exact rationals in canonical form ([Qc]):
      rounding, infinities and NaN are outside the model.
    - Indices are Python integers ([Z]); subscripting follows Python: a
      negative index counts from the end, anything else out of range raises
      [IndexError].
    - The process-wide random generator behind [np.random.rand] and
      [np.random.choice] is an explicit state threaded through every call.
    - The environment is an explicit state with [reset] and [step].
    - [while True] loops take a step budget per episode; running out of it is
      the distinct outcome [OutOfFuel], never confused with a Python exception. *)

From Stdlib Require Import ZArith QArith Qcanon.
From stdpp Require Import base tactics option list numbers.

Local Open Scope Z_scope.

(** ** Outcomes of a Python call *)

Inductive exn := IndexError | ValueError.

Inductive result (A : Type) :=
  | Ok (a : A)
  | Raise (e : exn)
  | OutOfFuel.
Arguments Ok {A} a.
Arguments Raise {A} e.
Arguments OutOfFuel {A}.

#[global] Instance result_ret : MRet result := λ A a, Ok a.

#[global] Instance result_bind : MBind result := λ A B k m,
  match m with
  | Ok a => k a
  | Raise e => Raise e
  | OutOfFuel => OutOfFuel
  end.

(** ** Python subscripting *)

(** The position a Python index denotes in a sequence of length [n]. *)
Definition norm_index (n : nat) (i : Z) : option nat :=
  if decide (0 ≤ i < Z.of_nat n) then Some (Z.to_nat i)
  else if decide (- Z.of_nat n ≤ i < 0) then Some (Z.to_nat (Z.of_nat n + i))
  else None.

(** [l[i]] *)
Definition py_get {A} (l : list A) (i : Z) : result A :=
  match norm_index (length l) i with
  | Some k => match l !! k with Some x => Ok x | None => Raise IndexError end
  | None => Raise IndexError
  end.

(** [l[i] = x] *)
Definition py_set {A} (l : list A) (i : Z) (x : A) : result (list A) :=
  match norm_index (length l) i with
  | Some k => Ok (<[k:=x]> l)
  | None => Raise IndexError
  end.

(** ** Action-value tables *)

Abbreviation row := (list Qc).
Abbreviation table := (list (list Qc)).

(** [np.zeros((nS, nA))]; numpy refuses negative dimensions. *)
Definition np_zeros (nS nA : Z) : result table :=
  if decide (nS < 0 ∨ nA < 0) then Raise ValueError
  else Ok (replicate (Z.to_nat nS) (replicate (Z.to_nat nA) 0%Qc)).

(** [np.argmax] on a one-dimensional array: a left-to-right scan that
    replaces the running best only by a strictly larger entry. *)
Fixpoint argmax_scan (best_i : nat) (best : Qc) (i : nat) (l : row) : nat :=
  match l with
  | [] => best_i
  | x :: l' =>
      if decide (best < x)%Qc then argmax_scan i x (S i) l'
      else argmax_scan best_i best (S i) l'
  end.

Definition np_argmax (r : row) : result Z :=
  match r with
  | [] => Raise ValueError
  | x :: l => Ok (Z.of_nat (argmax_scan 0 x 1 l))
  end.

(** [Q1 + Q2] and [Q / 2] on arrays of one shape. *)
Definition table_add (Q1 Q2 : table) : table :=
  zip_with (zip_with Qcplus) Q1 Q2.

Definition table_halve (Q : table) : table :=
  map (map (λ x, x / 2)%Qc) Q.

(** [Q[s][a]], also written [Q[s, a]]. *)
Definition table_get (Q : table) (s a : Z) : result Qc :=
  r ← py_get Q s ; py_get r a.

(** ** The shared random source *)

(** [draw] is [np.random.rand()], uniform on [0, 1); [pick n] is
    [np.random.choice(np.arange(n))] for [n > 0]. *)
Record RandomSource := {
  gen : Type;
  draw : gen → Qc * gen;
  pick : nat → gen → nat * gen;
  draw_unit : ∀ g, (0 ≤ (draw g).1 ∧ (draw g).1 < 1)%Qc;
  pick_lt : ∀ n g, (0 < n)%nat → ((pick n g).1 < n)%nat;
}.

(** A linear congruential generator as a concrete source. *)
Definition lcg_next (x : Z) : Z := (1103515245 * x + 12345) `mod` 2147483648.

Definition lcg_draw (x : Z) : Qc * Z :=
  (Q2Qc (Qmake (lcg_next x) 2147483648), lcg_next x).

Definition lcg_pick (n : nat) (x : Z) : nat * Z :=
  (Z.to_nat (lcg_next x `mod` Z.of_nat n), lcg_next x).

(** ** The environment *)

(** [reset] yields the initial state; [step a] yields
    [(next_state, reward, done)], the ignored [info] being left out. *)
Record Env := {
  world : Type;
  nS : Z;
  nA : Z;
  reset : world → Z * world;
  step : Z → world → Z * Qc * bool * world;
}.

(** ** Loops *)

(** [for t in ts: body], threading the variables the body assigns. *)
Fixpoint for_each {S} (ts : list Z) (body : Z → S → result S) (s : S)
    : result S :=
  match ts with
  | [] => Ok s
  | t :: ts' => s' ← body t s ; for_each ts' body s'
  end.

(** [while True: body; if done: break], at most [fuel] rounds. *)
Fixpoint while_true {S} (fuel : nat) (body : S → result (bool * S)) (s : S)
    : result S :=
  match fuel with
  | O => OutOfFuel
  | S fuel' =>
      '(done, s') ← body s ;
      if done : bool then Ok s' else while_true fuel' body s'
  end.

(** [range(n)] *)
Definition py_range (n : Z) : list Z := seqZ 0 n.

(** [zero_value(env)] *)
Definition zero_value (E : Env) : result table := np_zeros (nS E) (nA E).

Section Learning.

Context (R : RandomSource) (E : Env).

(** [egreedy_policy(s, Q, epsilon)] *)
Definition egreedy_policy (s : Z) (Q : table) (epsilon : Qc) (g : gen R)
    : result (Z * gen R) :=
  let '(random, g) := draw R g in
  if decide (random < epsilon)%Qc then
    r ← py_get Q s ;
    let num_actions := length r in
    if decide (num_actions = O) then Raise ValueError
    else let '(i, g) := pick R num_actions g in Ok (Z.of_nat i, g)
  else
    r ← py_get Q s ;
    a ← np_argmax r ;
    Ok (a, g).

(** The assignment
    [Qw[s][a] += alpha * (reward + gamma * Qr[s'][a'] - Qw[s][a])]:
    every read happens before the single store. *)
Definition td_assign (Qw Qr : table) (s a : Z) (alpha gamma reward : Qc)
    (s' a' : Z) : result table :=
  r ← py_get Qw s ;
  old ← py_get r a ;
  r_next ← py_get Qr s' ;
  boot ← py_get r_next a' ;
  cur ← table_get Qw s a ;
  r' ← py_set r a (old + alpha * (reward + gamma * boot - cur))%Qc ;
  py_set Qw s r'.

(** [sum_rewards[t] += reward] *)
Definition add_reward (sum_rewards : list Qc) (t : Z) (reward : Qc)
    : result (list Qc) :=
  old ← py_get sum_rewards t ;
  py_set sum_rewards t (old + reward)%Qc.

(** Variables live across episodes: the table(s) of type [T], the reward
    trace, the environment and the random source. *)
Record run (T : Type) := Run {
  tbl : T;
  sum_rewards : list Qc;
  wld : world E;
  rnd : gen R;
}.
Arguments Run {T}.
Arguments tbl {T}.
Arguments sum_rewards {T}.
Arguments wld {T}.
Arguments rnd {T}.

(** *** SARSA *)

Record sarsa_vars := SarsaVars {
  sv_state : Z;
  sv_action : Z;
  sv_run : run table;
}.

Definition sarsa_body (alpha gamma epsilon : Qc) (t : Z) (v : sarsa_vars)
    : result (bool * sarsa_vars) :=
  let '(next_state, reward, done, w) := step E (sv_action v) (wld (sv_run v)) in
  let Q := tbl (sv_run v) in
  '(next_action, g) ← egreedy_policy next_state Q epsilon (rnd (sv_run v)) ;
  Q ← td_assign Q Q (sv_state v) (sv_action v) alpha gamma reward
        next_state next_action ;
  rewards ← add_reward (sum_rewards (sv_run v)) t reward ;
  Ok (done, SarsaVars next_state next_action (Run Q rewards w g)).

Definition sarsa_episode (fuel : nat) (alpha gamma epsilon : Qc) (t : Z)
    (r : run table) : result (run table) :=
  let rewards := sum_rewards r ++ [0%Qc] in
  let '(state, w) := reset E (wld r) in
  '(action, g) ← egreedy_policy state (tbl r) epsilon (rnd r) ;
  v ← while_true fuel (sarsa_body alpha gamma epsilon t)
        (SarsaVars state action (Run (tbl r) rewards w g)) ;
  Ok (sv_run v).

Definition sarsa (fuel : nat) (alpha gamma epsilon : Qc) (num_episodes : Z)
    (w : world E) (g : gen R) : result (run table) :=
  Q ← zero_value E ;
  for_each (py_range num_episodes) (sarsa_episode fuel alpha gamma epsilon)
    (Run Q [] w g).

(** *** Q-learning *)

Record q_vars (T : Type) := QVars {
  qv_state : Z;
  qv_run : run T;
}.
Arguments QVars {T}.
Arguments qv_state {T}.
Arguments qv_run {T}.

Definition qlearning_body (alpha gamma epsilon : Qc) (t : Z) (v : q_vars table)
    : result (bool * q_vars table) :=
  let Q := tbl (qv_run v) in
  '(action, g) ← egreedy_policy (qv_state v) Q epsilon (rnd (qv_run v)) ;
  let '(next_state, reward, done, w) := step E action (wld (qv_run v)) in
  r_next ← py_get Q next_state ;
  next_action ← np_argmax r_next ;
  Q ← td_assign Q Q (qv_state v) action alpha gamma reward
        next_state next_action ;
  rewards ← add_reward (sum_rewards (qv_run v)) t reward ;
  Ok (done, QVars next_state (Run Q rewards w g)).

Definition qlearning_episode (fuel : nat) (alpha gamma epsilon : Qc) (t : Z)
    (r : run table) : result (run table) :=
  let rewards := sum_rewards r ++ [0%Qc] in
  let '(state, w) := reset E (wld r) in
  v ← while_true fuel (qlearning_body alpha gamma epsilon t)
        (QVars state (Run (tbl r) rewards w (rnd r))) ;
  Ok (qv_run v).

Definition qlearning (fuel : nat) (alpha gamma epsilon : Qc) (num_episodes : Z)
    (w : world E) (g : gen R) : result (run table) :=
  Q ← zero_value E ;
  for_each (py_range num_episodes) (qlearning_episode fuel alpha gamma epsilon)
    (Run Q [] w g).

(** *** Double Q-learning *)

Definition double_body (alpha gamma epsilon : Qc) (t : Z)
    (v : q_vars (table * table)) : result (bool * q_vars (table * table)) :=
  let '(Q1, Q2) := tbl (qv_run v) in
  '(action, g) ← egreedy_policy (qv_state v) (table_add Q1 Q2) epsilon
                    (rnd (qv_run v)) ;
  let '(next_state, reward, done, w) := step E action (wld (qv_run v)) in
  let '(coin, g) := draw R g in
  '(Q1, Q2) ←
    (if decide (coin < 1 / 2)%Qc then
       r_next ← py_get Q1 next_state ;
       next_action ← np_argmax r_next ;
       Q1 ← td_assign Q1 Q2 (qv_state v) action alpha gamma reward
              next_state next_action ;
       Ok (Q1, Q2)
     else
       r_next ← py_get Q2 next_state ;
       next_action ← np_argmax r_next ;
       Q2 ← td_assign Q2 Q1 (qv_state v) action alpha gamma reward
              next_state next_action ;
       Ok (Q1, Q2)) ;
  rewards ← add_reward (sum_rewards (qv_run v)) t reward ;
  Ok (done, QVars next_state (Run (Q1, Q2) rewards w g)).

Definition double_episode (fuel : nat) (alpha gamma epsilon : Qc) (t : Z)
    (r : run (table * table)) : result (run (table * table)) :=
  let rewards := sum_rewards r ++ [0%Qc] in
  let '(state, w) := reset E (wld r) in
  v ← while_true fuel (double_body alpha gamma epsilon t)
        (QVars state (Run (tbl r) rewards w (rnd r))) ;
  Ok (qv_run v).

(** The tables the loop leaves behind, before the final averaging. *)
Definition double_tables (fuel : nat) (alpha gamma epsilon : Qc)
    (num_episodes : Z) (w : world E) (g : gen R)
    : result (run (table * table)) :=
  Q1 ← zero_value E ;
  Q2 ← zero_value E ;
  for_each (py_range num_episodes) (double_episode fuel alpha gamma epsilon)
    (Run (Q1, Q2) [] w g).

Definition double_qlearning (fuel : nat) (alpha gamma epsilon : Qc)
    (num_episodes : Z) (w : world E) (g : gen R) : result (run table) :=
  r ← double_tables fuel alpha gamma epsilon num_episodes w g ;
  let '(Q1, Q2) := tbl r in
  Ok (Run (table_halve (table_add Q1 Q2)) (sum_rewards r) (wld r) (rnd r)).

End Learning.

Arguments Run {R E T}.
Arguments tbl {R E T}.
Arguments sum_rewards {R E T}.
Arguments wld {R E T}.
Arguments rnd {R E T}.
Arguments SarsaVars {R E}.
Arguments sv_state {R E}.
Arguments sv_action {R E}.
Arguments sv_run {R E}.
Arguments QVars {R E T}.
Arguments qv_state {R E T}.
Arguments qv_run {R E T}.

(** ** Concrete instances *)

Lemma lcg_next_range x : 0 ≤ lcg_next x < 2147483648.
Proof. unfold lcg_next. apply Z.mod_pos_bound. lia. Qed.

Lemma lcg_draw_unit x : (0 ≤ (lcg_draw x).1 ∧ (lcg_draw x).1 < 1)%Qc.
Proof.
  pose proof (lcg_next_range x) as Hx. unfold lcg_draw; simpl.
  unfold Qcle, Qclt; simpl. rewrite !Qred_correct.
  unfold Qle, Qlt; simpl. lia.
Qed.

Lemma lcg_pick_lt n x : (0 < n)%nat → ((lcg_pick n x).1 < n)%nat.
Proof.
  intros Hn. unfold lcg_pick; simpl.
  pose proof (Z.mod_pos_bound (lcg_next x) (Z.of_nat n)). lia.
Qed.

Definition lcg : RandomSource :=
  {| gen := Z; draw := lcg_draw; pick := lcg_pick;
     draw_unit := lcg_draw_unit; pick_lt := lcg_pick_lt |}.

(** The two-state, two-action environment of the concrete scenario: from
    state 0, action 0 moves to state 1 with reward 1 and ends the episode;
    any other action stays in state 0 with reward 0. State 1 is terminal. *)
Definition two_state_step (a : Z) (s : Z) : Z * Qc * bool * Z :=
  if decide (s = 0) then
    if decide (a = 0) then (1, 1%Qc, true, 1) else (0, 0%Qc, false, 0)
  else (1, 0%Qc, true, 1).

Definition two_state : Env :=
  {| world := Z; nS := 2; nA := 2;
     reset := λ _, (0, 0); step := two_state_step |}.

(** ** Vocabulary of the statements *)

(** The indices Python accepts for a sequence of length [n]. *)
Definition in_bounds (n : nat) (i : Z) : Prop := - Z.of_nat n ≤ i < Z.of_nat n.

(** [first_max r k x]: [x] sits at position [k] of [r], no entry exceeds it,
    and every entry before [k] is strictly smaller. *)
Definition first_max (r : row) (k : nat) (x : Qc) : Prop :=
  r !! k = Some x ∧
  (∀ j y, r !! j = Some y → (y ≤ x)%Qc) ∧
  (∀ j y, r !! j = Some y → (j < k)%nat → (y < x)%Qc).

(** A table with a tie for the maximum of its first row. *)
Definition tie_table : table :=
  [[1%Qc; Qc_of_Z 3; Qc_of_Z 3]; [0%Qc; 0%Qc; 0%Qc]].

(** The entry at row position [i], column position [j]. *)
Definition entry (Q : table) (i j : nat) : option Qc := r ← Q !! i ; r !! j.

(** The table with the entry at [(i, j)] replaced. *)
Definition table_set (Q : table) (i j : nat) (x : Qc) : table :=
  alter (<[j:=x]>) i Q.

(** The Python indices [s, a] denote position [(i, j)] of [Q], holding [x]. *)
Definition cell_at (Q : table) (s a : Z) (i j : nat) (x : Qc) : Prop :=
  ∃ r, norm_index (length Q) s = Some i ∧ Q !! i = Some r ∧
       norm_index (length r) a = Some j ∧ r !! j = Some x.

(** A table of [m] rows and [n] columns. *)
Definition shaped (m n : nat) (Q : table) : Prop :=
  length Q = m ∧ Forall (λ r, length r = n) Q.

(** [td_updated Q Q' s a alpha target] is the effect of
    [table[s,a] += alpha * (target - table[s,a])] read off the tables: the
    cell that [(s, a)] denotes held [old] and now holds
    [old + alpha * (target - old)], and no other entry changed. *)
Definition td_updated (Q Q' : table) (s a : Z) (alpha target : Qc) : Prop :=
  ∃ i j old,
    cell_at Q s a i j old ∧
    cell_at Q' s a i j (old + alpha * (target - old))%Qc ∧
    ∀ i' j', (i', j') ≠ (i, j) → entry Q' i' j' = entry Q i' j'.

(** [cross_updated Qw Qr Qw' s a alpha gamma reward s'] is the effect of
    [Qw[s,a] += alpha * (reward + gamma * Qr[s', argmax Qw[s']] - Qw[s,a])]:
    the index [k] is the first maximum of [Qw]'s row for [s'], the bootstrap
    value is read at [k] from [Qr]. *)
Definition cross_updated (Qw Qr Qw' : table) (s a : Z)
    (alpha gamma reward : Qc) (s' : Z) : Prop :=
  ∃ r_next k m boot,
    py_get Qw s' = Ok r_next ∧ first_max r_next k m ∧
    table_get Qr s' (Z.of_nat k) = Ok boot ∧
    td_updated Qw Qw' s a alpha (reward + gamma * boot)%Qc.

(** Two tables whose sum has its maximum where neither of them has. *)
Definition lean_left : table := [[Qc_of_Z 3; 0%Qc; Qc_of_Z 2]].
Definition lean_right : table := [[0%Qc; Qc_of_Z 3; Qc_of_Z 2]].

(** Every episode continued from [w] ends within [k] steps, whatever valid
    actions are taken. *)
Fixpoint ends_within (E : Env) (k : nat) (w : world E) : Prop :=
  match k with
  | O => False
  | S k' => ∀ a, 0 ≤ a < nA E →
      (step E a w).1.2 = true ∨ ends_within E k' (step E a w).2
  end.

(** The environment contract: positive counts, states within range, and
    episodes of at most [horizon] steps. *)
Record valid_env (E : Env) (horizon : nat) : Prop := {
  valid_nS : 0 < nS E;
  valid_nA : 0 < nA E;
  valid_reset : ∀ w, 0 ≤ (reset E w).1 < nS E;
  valid_step : ∀ a w, 0 ≤ a < nA E → 0 ≤ (step E a w).1.1.1 < nS E;
  valid_ends : ∀ w, ends_within E horizon (reset E w).2;
}.

(** A three-state chain: every action moves one state to the right, action
    0 earns reward 1, and the episode ends on reaching state 2. *)
Definition chain_step (a : Z) (s : Z) : Z * Qc * bool * Z :=
  let s' := Z.min 2 (Z.max 0 s + 1) in
  (s', if decide (a = 0) then 1%Qc else 0%Qc, bool_decide (s' = 2), s').

Definition chain : Env :=
  {| world := Z; nS := 3; nA := 2;
     reset := λ _, (0, 0); step := chain_step |}.

(** The state of the variables between two episodes, [t] of them done. *)
Definition between_episodes {R E T} (ok : T → Prop) (t : Z) (r : run R E T)
    : Prop :=
  0 ≤ t ∧ ok (tbl r) ∧ length (sum_rewards r) = Z.to_nat t.

(** The state of the variables inside episode [t], at most [k] steps from
    its end. *)
Definition within_episode {R E T} (ok : T → Prop) (t : Z) (k : nat) (s : Z)
    (r : run R E T) : Prop :=
  0 ≤ t ∧ ok (tbl r) ∧ length (sum_rewards r) = S (Z.to_nat t) ∧
  0 ≤ s < nS E ∧ ends_within E k (wld r).

(** Inside a SARSA episode the pending action is a valid one as well. *)
Definition sarsa_inv {R E} (t : Z) (k : nat) (v : sarsa_vars R E) : Prop :=
  within_episode (shaped (Z.to_nat (nS E)) (Z.to_nat (nA E))) t k
    (sv_state v) (sv_run v) ∧
  0 ≤ sv_action v < nA E.

(** Both tables of double Q-learning have the environment's shape. *)
Definition both_shaped (E : Env) (T : table * table) : Prop :=
  shaped (Z.to_nat (nS E)) (Z.to_nat (nA E)) T.1 ∧
  shaped (Z.to_nat (nS E)) (Z.to_nat (nA E)) T.2.

(** The zero table of the two-state environment. *)
Definition zeros2 : table := [[0%Qc; 0%Qc]; [0%Qc; 0%Qc]].

(** The table after the first update of cell [(0, 0)]. *)
Definition first_update : table :=
  [[(0 + 1 / 2 * (1 + 1 * 0 - 0))%Qc; 0%Qc]; [0%Qc; 0%Qc]].

(** Which table the coin selects in the scenario's only round. *)
Definition coin_tables (coin : Qc) : table * table :=
  if decide (coin < 1 / 2)%Qc then (first_update, zeros2)
  else (zeros2, first_update).

(** A SARSA round in state 0 that executes action 1 and stays in state 0. *)
Definition sarsa_round : sarsa_vars lcg two_state :=
  SarsaVars 0 1 (Run (R:=lcg) (E:=two_state) zeros2 [0%Qc] 0 42).

(** A SARSA round in state 0 that executes action 0 and ends the episode,
    on a table whose terminal row is not zero. *)
Definition sarsa_last_round : sarsa_vars lcg two_state :=
  SarsaVars 0 0
    (Run (R:=lcg) (E:=two_state) [[0%Qc; 0%Qc]; [1%Qc; 0%Qc]] [0%Qc] 0 42).

(** The first round of Q-learning and of double Q-learning in the two-state
    environment. *)
Definition qlearning_round : q_vars lcg two_state table :=
  QVars 0 (Run (R:=lcg) (E:=two_state) zeros2 [0%Qc] 0 42).

Definition double_round : q_vars lcg two_state (table * table) :=
  QVars 0 (Run (R:=lcg) (E:=two_state) (zeros2, zeros2) [0%Qc] 0 42).

(** Every entry of the table satisfies [P]. *)
Definition all_entries (P : Qc → Prop) (Q : table) : Prop :=
  Forall (Forall P) Q.

(** An environment with one state and one action whose every episode ends
    at its first step with reward 0. *)
Definition silent : Env :=
  {| world := unit; nS := 1; nA := 1;
     reset := λ w, (0, w); step := λ _ w, (0, 0%Qc, true, w) |}.

(** An environment with one state and one action that never reports the end
    of an episode. *)
Definition treadmill : Env :=
  {| world := unit; nS := 1; nA := 1;
     reset := λ w, (0, w); step := λ _ w, (0, 1%Qc, false, w) |}.

(** An environment that declares two states and resets to state 5. *)
Definition stray : Env :=
  {| world := unit; nS := 2; nA := 2;
     reset := λ w, (5, w); step := λ _ w, (0, 0%Qc, true, w) |}.

(** An environment that declares a negative number of actions. *)
Definition hollow : Env :=
  {| world := unit; nS := 2; nA := -1;
     reset := λ w, (0, w); step := λ _ w, (0, 0%Qc, true, w) |}.

(** ** Subscripting lemmas *)

Lemma norm_index_lt n i k : norm_index n i = Some k → (k < n)%nat.
Proof.
  unfold norm_index. repeat case_decide; intros; simplify_eq; lia.
Qed.

Lemma norm_index_nonneg n i :
  0 ≤ i < Z.of_nat n → norm_index n i = Some (Z.to_nat i).
Proof. intros. unfold norm_index. by rewrite decide_True. Qed.

Lemma norm_index_is_Some n i : in_bounds n i → is_Some (norm_index n i).
Proof.
  unfold in_bounds, norm_index. intros. repeat case_decide; eauto; lia.
Qed.

Lemma norm_index_None n i : ¬ in_bounds n i → norm_index n i = None.
Proof.
  unfold in_bounds, norm_index. intros. repeat case_decide; auto; lia.
Qed.

Lemma py_get_Ok {A} (l : list A) i x :
  py_get l i = Ok x ↔ ∃ k, norm_index (length l) i = Some k ∧ l !! k = Some x.
Proof.
  unfold py_get. split.
  - destruct (norm_index _ _) as [k|]; [|done].
    destruct (l !! k) eqn:Hk; [|done]. intros [= ->]. eauto.
  - intros (k & -> & ->). done.
Qed.

Lemma py_get_in_bounds {A} (l : list A) i :
  in_bounds (length l) i → ∃ x, py_get l i = Ok x.
Proof.
  intros [k Hk]%norm_index_is_Some.
  destruct (lookup_lt_is_Some_2 l k) as [x Hx]; [by eapply norm_index_lt|].
  exists x. apply py_get_Ok. eauto.
Qed.

Lemma py_get_out_of_bounds {A} (l : list A) i :
  ¬ in_bounds (length l) i → py_get l i = Raise IndexError.
Proof. intros H. unfold py_get. by rewrite norm_index_None. Qed.

Lemma py_get_nonneg {A} (l : list A) i x :
  0 ≤ i → l !! Z.to_nat i = Some x → py_get l i = Ok x.
Proof.
  intros Hi Hx. apply py_get_Ok. exists (Z.to_nat i). split; [|done].
  apply norm_index_nonneg. apply lookup_lt_Some in Hx. lia.
Qed.

Lemma py_set_Ok {A} (l : list A) i x l' :
  py_set l i x = Ok l' ↔ ∃ k, norm_index (length l) i = Some k ∧ l' = <[k:=x]> l.
Proof.
  unfold py_set. destruct (norm_index _ _) as [k|]; split.
  - intros [= <-]. eauto.
  - by intros (? & [= <-] & ->).
  - done.
  - by intros (? & [=] & _).
Qed.

Lemma py_set_length {A} (l : list A) i x l' :
  py_set l i x = Ok l' → length l' = length l.
Proof. intros (k & _ & ->)%py_set_Ok. apply length_insert. Qed.

(** ** [np.argmax] returns the first maximum *)

Lemma first_max_unique r k x k' x' :
  first_max r k x → first_max r k' x' → k = k' ∧ x = x'.
Proof.
  intros (Hk & Hle & Hlt) (Hk' & Hle' & Hlt').
  assert (k = k') as <-.
  { destruct (Nat.lt_trichotomy k k') as [H|[H|H]]; [|done|].
    - pose proof (Hlt' _ _ Hk H). pose proof (Hle _ _ Hk').
      exfalso. eapply Qclt_not_le; eauto.
    - pose proof (Hlt _ _ Hk' H). pose proof (Hle' _ _ Hk).
      exfalso. eapply Qclt_not_le; eauto. }
  split; congruence.
Qed.

Lemma argmax_scan_first_max l : ∀ pre best_i best,
  first_max pre best_i best →
  ∃ x, first_max (pre ++ l) (argmax_scan best_i best (length pre) l) x.
Proof.
  induction l as [|x l IH]; intros pre best_i best (Hb & Hle & Hlt); simpl.
  - rewrite app_nil_r. by exists best.
  - assert (Hbi : (best_i < length pre)%nat) by by eapply lookup_lt_Some.
    replace (pre ++ x :: l) with ((pre ++ [x]) ++ l) by by rewrite <-app_assoc.
    replace (S (length pre)) with (length (pre ++ [x]))
      by (rewrite length_app; simpl; lia).
    case_decide as Hx; apply IH; split_and!.
    + by rewrite lookup_app_r, Nat.sub_diag.
    + intros j y Hj. apply lookup_app_Some in Hj as [Hj|[_ Hj]].
      * apply Qclt_le_weak. eapply Qcle_lt_trans; [by eapply Hle|done].
      * apply list_lookup_singleton_Some in Hj as [_ ->]. apply Qcle_refl.
    + intros j y Hj Hlen. rewrite lookup_app_l in Hj by done.
      eapply Qcle_lt_trans; [by eapply Hle|done].
    + by rewrite lookup_app_l.
    + intros j y Hj. apply lookup_app_Some in Hj as [Hj|[_ Hj]]; [eauto|].
      apply list_lookup_singleton_Some in Hj as [_ ->]. by apply Qcnot_lt_le.
    + intros j y Hj Hlen. rewrite lookup_app_l in Hj by lia. eauto.
Qed.

Lemma np_argmax_first_max r :
  r ≠ [] → ∃ k x, np_argmax r = Ok (Z.of_nat k) ∧ first_max r k x.
Proof.
  destruct r as [|x l]; [done|intros _]. simpl.
  destruct (argmax_scan_first_max l [x] 0%nat x) as [y Hy].
  - split_and!; [done| |intros; lia].
    intros j y Hj. apply list_lookup_singleton_Some in Hj as [_ ->].
    apply Qcle_refl.
  - eauto.
Qed.

Lemma np_argmax_Ok r a :
  np_argmax r = Ok a → ∃ k x, a = Z.of_nat k ∧ first_max r k x.
Proof.
  intros Ha. destruct (decide (r = [])) as [->|Hr]; [done|].
  destruct (np_argmax_first_max r Hr) as (k & x & Hk & Hmax).
  exists k, x. split; congruence.
Qed.

(** ** The epsilon-greedy policy *)

Section Policy.

Context (R : RandomSource).

Lemma draw_not_neg (g : gen R) : ¬ ((draw R g).1 < 0)%Qc.
Proof. apply Qcle_not_lt, draw_unit. Qed.

Lemma first_max_lt r k x : first_max r k x → 0 ≤ Z.of_nat k < Z.of_nat (length r).
Proof. intros (Hk%lookup_lt_Some & _). lia. Qed.

(** What a successful call did: it read the row of [s], and either explored
    with a uniform pick or returned the first maximum of the row. *)
Lemma egreedy_policy_Ok s (Q : table) epsilon g a g' :
  egreedy_policy R s Q epsilon g = Ok (a, g') →
  ∃ r, py_get Q s = Ok r ∧ 0 ≤ a < Z.of_nat (length r) ∧
    (((draw R g).1 < epsilon)%Qc ∧
       a = Z.of_nat (pick R (length r) (draw R g).2).1 ∧
       g' = (pick R (length r) (draw R g).2).2
     ∨ ¬ ((draw R g).1 < epsilon)%Qc ∧ g' = (draw R g).2 ∧
       ∃ k x, a = Z.of_nat k ∧ first_max r k x).
Proof.
  unfold egreedy_policy. destruct (draw R g) as [random g1] eqn:Hd; simpl.
  case_decide as Hlt.
  - destruct (py_get Q s) as [r| |]; simpl; [|done..].
    case_decide as Hn; [done|].
    destruct (pick R (length r) g1) as [i g2] eqn:Hp. intros [= <- <-].
    exists r. split; [done|]. split; [|left; by rewrite Hp].
    pose proof (pick_lt R (length r) g1 ltac:(lia)) as Hi.
    rewrite Hp in Hi. simpl in Hi. lia.
  - destruct (py_get Q s) as [r| |]; simpl; [|done..].
    destruct (np_argmax r) as [a0| |] eqn:Ha; simpl; [|done..].
    intros [= <- <-]. apply np_argmax_Ok in Ha as (k & x & -> & Hmax).
    exists r. split; [done|]. split; [by eapply first_max_lt|].
    right. split_and!; [done..|]. by exists k, x.
Qed.

(** On a non-empty row the call succeeds with an action of that row. *)
Lemma egreedy_policy_total s (Q : table) epsilon g r :
  py_get Q s = Ok r → r ≠ [] →
  ∃ a g', egreedy_policy R s Q epsilon g = Ok (a, g') ∧
          0 ≤ a < Z.of_nat (length r).
Proof.
  intros Hr Hne. unfold egreedy_policy.
  destruct (draw R g) as [random g1] eqn:Hd; simpl. rewrite Hr; simpl.
  case_decide as Hlt.
  - rewrite decide_False by by destruct r.
    destruct (pick R (length r) g1) as [i g2] eqn:Hp.
    exists (Z.of_nat i), g2. split; [done|].
    pose proof (pick_lt R (length r) g1) as Hi. rewrite Hp in Hi. simpl in Hi.
    destruct r; [done|]. simpl in *. lia.
  - destruct (np_argmax_first_max r Hne) as (k & x & -> & Hmax); simpl.
    exists (Z.of_nat k), g1. split; [done|]. by eapply first_max_lt.
Qed.

(** With [epsilon = 0] the draw is never below [epsilon], so the greedy
    branch runs. *)
Lemma egreedy_policy_greedy s (Q : table) g r k x :
  py_get Q s = Ok r → first_max r k x →
  egreedy_policy R s Q 0 g = Ok (Z.of_nat k, (draw R g).2).
Proof.
  intros Hr Hmax. unfold egreedy_policy. pose proof (draw_not_neg g) as Hg.
  destruct (draw R g) as [random g1]; simpl in *.
  rewrite decide_False by done. rewrite Hr; simpl.
  destruct (np_argmax_first_max r) as (k' & x' & -> & Hmax').
  { intros ->. by destruct Hmax as [? _]. }
  by destruct (first_max_unique _ _ _ _ _ Hmax Hmax') as [-> _].
Qed.

(** C6. With [epsilon = 0] and an in-bounds state whose row is not empty,
    [egreedy_policy] returns, whatever the random source holds, the lowest
    index at which the row of [Q[s]] attains its maximum, and leaves the
    random source advanced by exactly one draw. *)
Theorem egreedy_policy_greedy_first_max (Q : table) (s : Z) :
  in_bounds (length Q) s →
  (∀ r, py_get Q s = Ok r → r ≠ []) →
  ∃ r k x, py_get Q s = Ok r ∧ first_max r k x ∧
    ∀ g, egreedy_policy R s Q 0 g = Ok (Z.of_nat k, (draw R g).2).
Proof.
  intros [r Hr]%py_get_in_bounds Hne.
  destruct (np_argmax_first_max r (Hne r Hr)) as (k & x & Hk & Hmax).
  exists r, k, x. split_and!; [done..|]. intros g.
  by eapply egreedy_policy_greedy.
Qed.

(** C7. A state index outside the table's bounds makes [egreedy_policy]
    raise [IndexError], on the exploring branch as well as on the greedy
    one. The bounds are Python's: [-|S| <= s < |S|]. *)
Theorem egreedy_policy_out_of_bounds (Q : table) (s : Z) epsilon g :
  ¬ in_bounds (length Q) s →
  egreedy_policy R s Q epsilon g = Raise IndexError.
Proof.
  intros Hs%py_get_out_of_bounds. unfold egreedy_policy.
  destruct (draw R g) as [random g1]. rewrite Hs. by case_decide.
Qed.

End Policy.

Lemma egreedy_policy_greedy_first_max_witness :
  ∃ r k x, py_get tie_table 0 = Ok r ∧ first_max r k x ∧
    ∀ g, egreedy_policy lcg 0 tie_table 0 g = Ok (Z.of_nat k, (draw lcg g).2).
Proof.
  apply (egreedy_policy_greedy_first_max lcg tie_table 0).
  - unfold in_bounds; simpl; lia.
  - intros r [= <-]. done.
Defined.

Lemma egreedy_policy_out_of_bounds_witness :
  egreedy_policy lcg 2 tie_table (Q2Qc (1 # 2)) 42 = Raise IndexError.
Proof.
  apply (egreedy_policy_out_of_bounds lcg tie_table 2).
  unfold in_bounds; simpl; lia.
Defined.

(** On [tie_table] the tie between actions 1 and 2 goes to action 1. *)
Example egreedy_policy_tie g :
  egreedy_policy lcg 0 tie_table 0 g = Ok (1, (draw lcg g).2).
Proof.
  apply (egreedy_policy_greedy lcg 0 tie_table g [1%Qc; Qc_of_Z 3; Qc_of_Z 3] 1%nat (Qc_of_Z 3)); [done|].
  split_and!; [done|..].
  - intros [|[|[|j]]] y Hy; simplify_eq/=; by vm_compute.
  - intros [|j] y Hy ?; simplify_eq/=; [by vm_compute|lia].
Qed.

(** A negative index that Python accepts selects a row from the end. *)
Example egreedy_policy_negative_index g :
  egreedy_policy lcg (-2) tie_table 0 g = Ok (1, (draw lcg g).2).
Proof. rewrite <-egreedy_policy_tie. done. Qed.

(** ** Cells of a table *)

Lemma table_get_Ok (Q : table) s a x :
  table_get Q s a = Ok x ↔ ∃ i j, cell_at Q s a i j x.
Proof.
  unfold table_get, cell_at. split.
  - destruct (py_get Q s) as [r| |] eqn:Hr; simpl; [|done..].
    intros Hx. apply py_get_Ok in Hr as (i & Hi & Hr).
    apply py_get_Ok in Hx as (j & Hj & Hx). by exists i, j, r.
  - intros (i & j & r & Hi & Hr & Hj & Hx).
    assert (py_get Q s = Ok r) as -> by (apply py_get_Ok; eauto).
    simpl. apply py_get_Ok; eauto.
Qed.

Lemma cell_at_entry Q s a i j x : cell_at Q s a i j x → entry Q i j = Some x.
Proof. intros (r & _ & Hr & _ & Hx). unfold entry. by rewrite Hr. Qed.

Lemma cell_at_inj Q s a i j x i' j' x' :
  cell_at Q s a i j x → cell_at Q s a i' j' x' → i = i' ∧ j = j' ∧ x = x'.
Proof.
  intros (r & Hi & Hr & Hj & Hx) (r' & Hi' & Hr' & Hj' & Hx').
  simplify_eq. by simplify_eq.
Qed.

Lemma table_set_length Q i j x : length (table_set Q i j x) = length Q.
Proof. apply length_alter. Qed.

Lemma table_set_lookup Q i j x k :
  table_set Q i j x !! k =
    if decide (i = k) then <[j:=x]> <$> Q !! k else Q !! k.
Proof.
  unfold table_set. rewrite list_lookup_alter. by case_decide; subst.
Qed.

Lemma table_set_entry_eq Q i j x :
  is_Some (entry Q i j) → entry (table_set Q i j x) i j = Some x.
Proof.
  unfold entry. intros [y Hy]. rewrite table_set_lookup, decide_True by done.
  destruct (Q !! i) as [r|]; simpl in *; [|done].
  apply list_lookup_insert_eq. by eapply lookup_lt_Some.
Qed.

Lemma table_set_entry_ne Q i j x i' j' :
  (i', j') ≠ (i, j) → entry (table_set Q i j x) i' j' = entry Q i' j'.
Proof.
  unfold entry. intros Hne. rewrite table_set_lookup.
  case_decide as Hi; [|done]. subst i'.
  destruct (Q !! i) as [r|]; simpl; [|done].
  apply list_lookup_insert_ne. congruence.
Qed.

Lemma table_set_shaped m n Q i j x :
  shaped m n Q → shaped m n (table_set Q i j x).
Proof.
  intros [Hm Hn]. split; [by rewrite table_set_length|].
  apply Forall_lookup. intros k r. rewrite table_set_lookup.
  case_decide.
  - intros (r0 & Hr0 & ->)%fmap_Some. rewrite length_insert.
    by eapply (Forall_lookup_1 _ _ _ _ Hn).
  - by apply (Forall_lookup_1 _ _ _ _ Hn).
Qed.

(** Python indices denote the same positions before and after a store. *)
Lemma table_set_cell_at Q i j x s a y :
  cell_at Q s a i j y → cell_at (table_set Q i j x) s a i j x.
Proof.
  intros (r & Hi & Hr & Hj & Hy). exists (<[j:=x]> r).
  rewrite table_set_length, table_set_lookup, decide_True, Hr by done.
  rewrite length_insert. split_and!; [done..|].
  apply list_lookup_insert_eq. by eapply lookup_lt_Some.
Qed.

Lemma shaped_py_get m n (Q : table) s :
  shaped m n Q → 0 ≤ s < Z.of_nat m → ∃ r, py_get Q s = Ok r ∧ length r = n.
Proof.
  intros [Hm Hn] Hs. destruct (py_get_in_bounds Q s) as [r Hr].
  { unfold in_bounds. lia. }
  exists r. split; [done|]. apply py_get_Ok in Hr as (k & _ & Hk).
  by eapply (Forall_lookup_1 _ _ _ _ Hn).
Qed.

Lemma shaped_table_get m n (Q : table) s a :
  shaped m n Q → 0 ≤ s < Z.of_nat m → 0 ≤ a < Z.of_nat n →
  ∃ x, table_get Q s a = Ok x.
Proof.
  intros HQ Hs Ha. destruct (shaped_py_get m n Q s) as (r & Hr & Hlen); [done..|].
  unfold table_get. rewrite Hr; simpl. apply py_get_in_bounds.
  unfold in_bounds. lia.
Qed.

Lemma np_zeros_shaped nS nA :
  0 ≤ nS → 0 ≤ nA →
  ∃ Q, np_zeros nS nA = Ok Q ∧ shaped (Z.to_nat nS) (Z.to_nat nA) Q.
Proof.
  intros. unfold np_zeros. rewrite decide_False by lia.
  eexists. split; [done|]. split; [by rewrite length_replicate|].
  apply Forall_replicate. by rewrite length_replicate.
Qed.

(** ** The update statement *)

(** A successful update read the old entry and the bootstrap entry from the
    tables as they were, and stored the new value in the cell of [(s, a)]. *)
Lemma td_assign_Ok (Qw Qr : table) s a alpha gamma reward s' a' Q' :
  td_assign Qw Qr s a alpha gamma reward s' a' = Ok Q' →
  ∃ i j old boot,
    cell_at Qw s a i j old ∧ table_get Qr s' a' = Ok boot ∧
    Q' = table_set Qw i j (old + alpha * (reward + gamma * boot - old))%Qc.
Proof.
  unfold td_assign.
  destruct (py_get Qw s) as [r| |] eqn:Hr; simpl; [|done..].
  destruct (py_get r a) as [old| |] eqn:Hold; simpl; [|done..].
  destruct (py_get Qr s') as [rn| |] eqn:Hrn; simpl; [|done..].
  destruct (py_get rn a') as [boot| |] eqn:Hboot; simpl; [|done..].
  unfold table_get. rewrite Hr; simpl. rewrite Hold; simpl.
  destruct (py_set r a _) as [r2| |] eqn:Hr2; simpl; [|done..].
  intros HQ'.
  apply py_get_Ok in Hr as (i & Hi & Hr).
  apply py_get_Ok in Hold as (j & Hj & Hold).
  apply py_set_Ok in Hr2 as (j2 & Hj2 & ->).
  apply py_set_Ok in HQ' as (i2 & Hi2 & ->). simplify_eq.
  exists i, j, old, boot. split_and!.
  - by exists r.
  - by rewrite Hrn; simpl.
  - unfold table_set. apply list_eq. intros k.
    destruct (decide (i = k)) as [<-|Hk].
    + rewrite list_lookup_alter_eq, Hr; simpl.
      apply list_lookup_insert_eq. by eapply lookup_lt_Some.
    + by rewrite list_lookup_alter_ne, list_lookup_insert_ne.
Qed.

Lemma td_assign_total (Qw Qr : table) s a alpha gamma reward s' a' old boot :
  table_get Qw s a = Ok old → table_get Qr s' a' = Ok boot →
  ∃ Q', td_assign Qw Qr s a alpha gamma reward s' a' = Ok Q'.
Proof.
  intros Hold Hboot. unfold td_assign. rewrite Hold.
  unfold table_get in Hold, Hboot.
  destruct (py_get Qw s) as [r| |] eqn:Hr; simpl in *; [|done..].
  destruct (py_get Qr s') as [rn| |] eqn:Hrn; simpl in *; [|done..].
  rewrite Hold, Hboot; simpl.
  apply py_get_Ok in Hr as (i & Hi & Hr).
  apply py_get_Ok in Hold as (j & Hj & Hold).
  unfold py_set. rewrite Hj; simpl. rewrite Hi. eauto.
Qed.

Lemma td_updated_get Q Q' s a alpha target :
  td_updated Q Q' s a alpha target →
  ∃ old, table_get Q s a = Ok old ∧
         table_get Q' s a = Ok (old + alpha * (target - old))%Qc.
Proof.
  intros (i & j & old & Hc & Hc' & _). exists old.
  split; apply table_get_Ok; eauto.
Qed.

Lemma td_assign_updated (Qw Qr : table) s a alpha gamma reward s' a' Q' :
  td_assign Qw Qr s a alpha gamma reward s' a' = Ok Q' →
  ∃ boot, table_get Qr s' a' = Ok boot ∧
          td_updated Qw Q' s a alpha (reward + gamma * boot)%Qc.
Proof.
  intros (i & j & old & boot & Hc & Hboot & ->)%td_assign_Ok.
  exists boot. split; [done|]. exists i, j, old. split_and!; [done|..].
  - by eapply table_set_cell_at.
  - intros i' j' Hne. by apply table_set_entry_ne.
Qed.

Lemma td_assign_shaped m n (Qw Qr : table) s a alpha gamma reward s' a' Q' :
  td_assign Qw Qr s a alpha gamma reward s' a' = Ok Q' →
  shaped m n Qw → shaped m n Q'.
Proof.
  intros (i & j & old & boot & _ & _ & ->)%td_assign_Ok.
  apply table_set_shaped.
Qed.

Lemma add_reward_Ok (l : list Qc) t reward l' :
  add_reward l t reward = Ok l' → length l' = length l.
Proof.
  unfold add_reward. destruct (py_get l t); simpl; [|done..].
  apply py_set_length.
Qed.

Lemma add_reward_total (l : list Qc) t reward :
  in_bounds (length l) t → ∃ l', add_reward l t reward = Ok l'.
Proof.
  intros Ht. unfold add_reward.
  destruct (py_get_in_bounds l t Ht) as [old ->]; simpl.
  unfold py_set. destruct (norm_index_is_Some _ _ Ht) as [k ->]. eauto.
Qed.

(** ** Elementwise sum and average *)

Lemma table_add_lookup (Q1 Q2 : table) i r1 r2 :
  Q1 !! i = Some r1 → Q2 !! i = Some r2 →
  table_add Q1 Q2 !! i = Some (zip_with Qcplus r1 r2).
Proof.
  intros H1 H2. unfold table_add. by rewrite lookup_zip_with, H1, H2.
Qed.

Lemma table_add_py_get (Q1 Q2 : table) s r1 r2 :
  length Q1 = length Q2 → py_get Q1 s = Ok r1 → py_get Q2 s = Ok r2 →
  py_get (table_add Q1 Q2) s = Ok (zip_with Qcplus r1 r2).
Proof.
  intros Hlen (i & Hi & H1)%py_get_Ok (i' & Hi' & H2)%py_get_Ok.
  rewrite <-Hlen, Hi in Hi'. injection Hi' as <-.
  apply py_get_Ok. exists i. split; [|by apply table_add_lookup].
  unfold table_add. by rewrite length_zip_with, <-Hlen, Nat.min_id.
Qed.

Lemma table_add_entry (Q1 Q2 : table) i j x y :
  entry Q1 i j = Some x → entry Q2 i j = Some y →
  entry (table_add Q1 Q2) i j = Some (x + y)%Qc.
Proof.
  unfold entry. intros H1 H2.
  destruct (Q1 !! i) as [r1|] eqn:Hr1; [|done].
  destruct (Q2 !! i) as [r2|] eqn:Hr2; [|done]. simpl in *.
  rewrite (table_add_lookup _ _ _ _ _ Hr1 Hr2); simpl.
  by rewrite lookup_zip_with, H1, H2.
Qed.

Lemma table_halve_entry (Q : table) i j x :
  entry Q i j = Some x → entry (table_halve Q) i j = Some (x / 2)%Qc.
Proof.
  unfold entry, table_halve. intros H.
  destruct (Q !! i) as [r|] eqn:Hr; [|done]. simpl in *.
  rewrite list_lookup_fmap, Hr; simpl. by rewrite list_lookup_fmap, H.
Qed.

Lemma table_add_shaped m n Q1 Q2 :
  shaped m n Q1 → shaped m n Q2 → shaped m n (table_add Q1 Q2).
Proof.
  intros [Hm1 Hn1] [Hm2 Hn2]. split.
  - unfold table_add. rewrite length_zip_with. lia.
  - apply Forall_lookup. intros i r. unfold table_add.
    rewrite lookup_zip_with.
    destruct (Q1 !! i) as [r1|] eqn:Hr1; [|done].
    destruct (Q2 !! i) as [r2|] eqn:Hr2; [|done]. simpl. intros [= <-].
    rewrite length_zip_with.
    rewrite (Forall_lookup_1 _ _ _ _ Hn1 Hr1), (Forall_lookup_1 _ _ _ _ Hn2 Hr2).
    lia.
Qed.

(** Closes [first_max r k x] on a row given by its entries. *)
Ltac first_max_tac :=
  split_and!;
  [ reflexivity
  | intros j y Hy;
    repeat (destruct j as [|j]; simplify_eq/=; try by vm_compute)
  | intros j y Hy Hlt;
    repeat (destruct j as [|j]; simplify_eq/=; try lia; try by vm_compute) ].

(** ** One step of each learning loop *)

Section Steps.

Context (R : RandomSource) (E : Env).
Implicit Types (alpha gamma epsilon reward : Qc) (t : Z).

(** The statements of a SARSA round, in order. *)
Lemma sarsa_body_Ok alpha gamma epsilon t (v : sarsa_vars R E) d v' :
  sarsa_body R E alpha gamma epsilon t v = Ok (d, v') →
  ∃ s' reward w a' g' Q' rewards,
    step E (sv_action v) (wld (sv_run v)) = (s', reward, d, w) ∧
    egreedy_policy R s' (tbl (sv_run v)) epsilon (rnd (sv_run v))
      = Ok (a', g') ∧
    td_assign (tbl (sv_run v)) (tbl (sv_run v)) (sv_state v) (sv_action v)
      alpha gamma reward s' a' = Ok Q' ∧
    add_reward (sum_rewards (sv_run v)) t reward = Ok rewards ∧
    v' = SarsaVars s' a' (Run Q' rewards w g').
Proof.
  unfold sarsa_body.
  destruct (step E _ _) as [[[s' reward] done] w] eqn:Hstep.
  destruct (egreedy_policy _ _ _ _ _) as [[a' g']| |] eqn:Hpol; simpl; [|done..].
  destruct (td_assign _ _ _ _ _ _ _ _ _) as [Q'| |] eqn:HQ; simpl; [|done..].
  destruct (add_reward _ _ _) as [rewards| |] eqn:Hrew; simpl; [|done..].
  intros [= <- <-]. by exists s', reward, w, a', g', Q', rewards.
Qed.

(** C2. A SARSA round that took [action] to [(s', reward, done)] chose the
    next action [a'] with [egreedy_policy] on the table being learned, updated
    the cell of [(state, action)] by
    [alpha * (reward + gamma * table[s', a'] - table[state, action])] and
    nothing else, moved on to [(s', a')], and the round after it passes that
    same [a'] to the environment. *)
Theorem sarsa_step_on_policy alpha gamma epsilon t (v : sarsa_vars R E)
    s' reward done w d v' :
  step E (sv_action v) (wld (sv_run v)) = (s', reward, done, w) →
  sarsa_body R E alpha gamma epsilon t v = Ok (d, v') →
  ∃ a' boot,
    egreedy_policy R s' (tbl (sv_run v)) epsilon (rnd (sv_run v))
      = Ok (a', rnd (sv_run v')) ∧
    table_get (tbl (sv_run v)) s' a' = Ok boot ∧
    td_updated (tbl (sv_run v)) (tbl (sv_run v')) (sv_state v) (sv_action v)
      alpha (reward + gamma * boot)%Qc ∧
    sv_state v' = s' ∧ sv_action v' = a' ∧ d = done ∧ wld (sv_run v') = w ∧
    ∀ d2 v2, sarsa_body R E alpha gamma epsilon t v' = Ok (d2, v2) →
      step E a' w = (sv_state v2, (step E a' w).1.1.2, d2, wld (sv_run v2)).
Proof.
  intros Hstep Hbody.
  apply sarsa_body_Ok in Hbody
    as (s1 & r1 & w1 & a' & g' & Q' & rewards & Hstep' & Hpol & HQ & _ & ->).
  rewrite Hstep in Hstep'. injection Hstep' as <- <- <- <-.
  apply td_assign_updated in HQ as (boot & Hboot & Hupd).
  exists a', boot. simpl. split_and!; [done..|].
  intros d2 v2 Hbody2.
  apply sarsa_body_Ok in Hbody2
    as (s2 & r2 & w2 & a2 & g2 & Q2 & rewards2 & Hstep2 & _ & _ & _ & ->).
  simpl in *. by rewrite Hstep2.
Qed.

(** C10. On the round where the environment reports [done = true], SARSA
    still calls [egreedy_policy] at the terminal state, which advances the
    shared random source by a draw (and a pick when it explores), and the
    target of the update is [reward + gamma * Q[next_state][next_action]],
    the stored entry of the terminal row: the new value departs from the
    zero-bootstrap value [old + alpha * (reward - old)] by
    [alpha * gamma * Q[next_state][next_action]]. *)
Theorem sarsa_terminal_step_bootstraps alpha gamma epsilon t
    (v : sarsa_vars R E) s' reward w d v' :
  step E (sv_action v) (wld (sv_run v)) = (s', reward, true, w) →
  sarsa_body R E alpha gamma epsilon t v = Ok (d, v') →
  ∃ a' r' boot old,
    d = true ∧
    egreedy_policy R s' (tbl (sv_run v)) epsilon (rnd (sv_run v))
      = Ok (a', rnd (sv_run v')) ∧
    py_get (tbl (sv_run v)) s' = Ok r' ∧
    (rnd (sv_run v') = (draw R (rnd (sv_run v))).2 ∨
     rnd (sv_run v') = (pick R (length r') (draw R (rnd (sv_run v))).2).2) ∧
    table_get (tbl (sv_run v)) s' a' = Ok boot ∧
    table_get (tbl (sv_run v)) (sv_state v) (sv_action v) = Ok old ∧
    table_get (tbl (sv_run v')) (sv_state v) (sv_action v)
      = Ok (old + alpha * (reward + gamma * boot - old))%Qc ∧
    (old + alpha * (reward + gamma * boot - old)
     = old + alpha * (reward - old) + alpha * gamma * boot)%Qc.
Proof.
  intros Hstep Hbody.
  apply sarsa_body_Ok in Hbody
    as (s1 & r1 & w1 & a' & g' & Q' & rewards & Hstep' & Hpol & HQ & _ & ->).
  rewrite Hstep in Hstep'. injection Hstep' as <- <- <- <-.
  apply td_assign_updated in HQ as (boot & Hboot & Hupd).
  apply td_updated_get in Hupd as (old & Hold & Hnew).
  destruct (egreedy_policy_Ok _ _ _ _ _ _ _ Hpol) as (r' & Hr' & _ & Hg).
  exists a', r', boot, old. simpl. split_and!; [done..| |done|done|done|ring].
  destruct Hg as [(_ & _ & ->)|(_ & -> & _)]; auto.
Qed.

(** The statements of a Q-learning round, in order. *)
Lemma qlearning_body_Ok alpha gamma epsilon t (v : q_vars R E table) d v' :
  qlearning_body R E alpha gamma epsilon t v = Ok (d, v') →
  ∃ a g' s' reward w r_next next_action Q' rewards,
    egreedy_policy R (qv_state v) (tbl (qv_run v)) epsilon (rnd (qv_run v))
      = Ok (a, g') ∧
    step E a (wld (qv_run v)) = (s', reward, d, w) ∧
    py_get (tbl (qv_run v)) s' = Ok r_next ∧
    np_argmax r_next = Ok next_action ∧
    td_assign (tbl (qv_run v)) (tbl (qv_run v)) (qv_state v) a
      alpha gamma reward s' next_action = Ok Q' ∧
    add_reward (sum_rewards (qv_run v)) t reward = Ok rewards ∧
    v' = QVars s' (Run Q' rewards w g').
Proof.
  unfold qlearning_body.
  destruct (egreedy_policy _ _ _ _ _) as [[a g']| |] eqn:Hpol; simpl; [|done..].
  destruct (step E _ _) as [[[s' reward] done] w] eqn:Hstep.
  destruct (py_get _ s') as [r_next| |] eqn:Hr; simpl; [|done..].
  destruct (np_argmax _) as [next_action| |] eqn:Hmax; simpl; [|done..].
  destruct (td_assign _ _ _ _ _ _ _ _ _) as [Q'| |] eqn:HQ; simpl; [|done..].
  destruct (add_reward _ _ _) as [rewards| |] eqn:Hrew; simpl; [|done..].
  intros [= <- <-].
  by exists a, g', s', reward, w, r_next, next_action, Q', rewards.
Qed.

(** C3. A Q-learning round first chooses the action to execute with
    [egreedy_policy], then updates the cell of [(state, action)] by
    [alpha * (reward + gamma * m - table[state, action])], where [m] is the
    maximum of the next state's row over all actions. The round draws no
    further random number and fixes no next action: what is executed next
    is chosen afresh at the top of the following round. *)
Theorem qlearning_step_off_policy alpha gamma epsilon t
    (v : q_vars R E table) d v' :
  qlearning_body R E alpha gamma epsilon t v = Ok (d, v') →
  ∃ a reward r_next k m,
    egreedy_policy R (qv_state v) (tbl (qv_run v)) epsilon (rnd (qv_run v))
      = Ok (a, rnd (qv_run v')) ∧
    step E a (wld (qv_run v)) = (qv_state v', reward, d, wld (qv_run v')) ∧
    py_get (tbl (qv_run v)) (qv_state v') = Ok r_next ∧
    first_max r_next k m ∧
    td_updated (tbl (qv_run v)) (tbl (qv_run v')) (qv_state v) a
      alpha (reward + gamma * m)%Qc.
Proof.
  intros Hbody. apply qlearning_body_Ok in Hbody
    as (a & g' & s' & reward & w & r_next & na & Q' & rewards
        & Hpol & Hstep & Hr & Hmax & HQ & _ & ->).
  apply np_argmax_Ok in Hmax as (k & m & -> & Hmax).
  apply td_assign_updated in HQ as (boot & Hboot & Hupd).
  assert (boot = m) as ->.
  { unfold table_get in Hboot. rewrite Hr in Hboot. simpl in Hboot.
    destruct Hmax as [Hk _].
    rewrite (py_get_nonneg r_next (Z.of_nat k) m) in Hboot; [congruence|lia|].
    by rewrite Nat2Z.id. }
  by exists a, reward, r_next, k, m.
Qed.

(** The statements of a double Q-learning round, in order, up to the coin. *)
Lemma double_body_Ok alpha gamma epsilon t (v : q_vars R E (table * table))
    d v' :
  double_body R E alpha gamma epsilon t v = Ok (d, v') →
  ∃ a g1 s' reward w coin g2 Q1' Q2' rewards,
    egreedy_policy R (qv_state v)
      (table_add (tbl (qv_run v)).1 (tbl (qv_run v)).2) epsilon
      (rnd (qv_run v)) = Ok (a, g1) ∧
    step E a (wld (qv_run v)) = (s', reward, d, w) ∧
    draw R g1 = (coin, g2) ∧
    (if decide (coin < 1 / 2)%Qc then
       ∃ r_next next_action,
         py_get (tbl (qv_run v)).1 s' = Ok r_next ∧
         np_argmax r_next = Ok next_action ∧
         td_assign (tbl (qv_run v)).1 (tbl (qv_run v)).2 (qv_state v) a
           alpha gamma reward s' next_action = Ok Q1' ∧
         Q2' = (tbl (qv_run v)).2
     else
       ∃ r_next next_action,
         py_get (tbl (qv_run v)).2 s' = Ok r_next ∧
         np_argmax r_next = Ok next_action ∧
         td_assign (tbl (qv_run v)).2 (tbl (qv_run v)).1 (qv_state v) a
           alpha gamma reward s' next_action = Ok Q2' ∧
         Q1' = (tbl (qv_run v)).1) ∧
    add_reward (sum_rewards (qv_run v)) t reward = Ok rewards ∧
    v' = QVars s' (Run (Q1', Q2') rewards w g2).
Proof.
  unfold double_body. destruct (tbl (qv_run v)) as [Q1 Q2]; simpl.
  destruct (egreedy_policy _ _ _ _ _) as [[a g1]| |] eqn:Hpol; simpl; [|done..].
  destruct (step E _ _) as [[[s' reward] done] w] eqn:Hstep.
  destruct (draw R g1) as [coin g2] eqn:Hcoin.
  case_decide as Hc.
  - destruct (py_get Q1 s') as [r_next| |] eqn:Hr; simpl; [|done..].
    destruct (np_argmax _) as [next_action| |] eqn:Hmax; simpl; [|done..].
    destruct (td_assign _ _ _ _ _ _ _ _ _) as [Q'| |] eqn:HQ; simpl; [|done..].
    destruct (add_reward _ _ _) as [rewards| |] eqn:Hrew; simpl; [|done..].
    intros [= <- <-]. exists a, g1, s', reward, w, coin, g2, Q', Q2, rewards.
    rewrite decide_True by done. split_and!; try done.
    by exists r_next, next_action.
  - destruct (py_get Q2 s') as [r_next| |] eqn:Hr; simpl; [|done..].
    destruct (np_argmax _) as [next_action| |] eqn:Hmax; simpl; [|done..].
    destruct (td_assign _ _ _ _ _ _ _ _ _) as [Q'| |] eqn:HQ; simpl; [|done..].
    destruct (add_reward _ _ _) as [rewards| |] eqn:Hrew; simpl; [|done..].
    intros [= <- <-]. exists a, g1, s', reward, w, coin, g2, Q1, Q', rewards.
    rewrite decide_False by done. split_and!; try done.
    by exists r_next, next_action.
Qed.

(** C4. A double Q-learning round, once the transition is observed, draws
    one number [coin] from the unit interval [0, 1). If it falls in the lower
    half [0, 1/2), table A is updated with the argmax taken over A's
    next-state row and the bootstrap value read from B, and B is left alone;
    if it falls in the upper half [1/2, 1), the roles are exchanged. *)
Theorem double_step_coin alpha gamma epsilon t
    (v : q_vars R E (table * table)) d v' :
  double_body R E alpha gamma epsilon t v = Ok (d, v') →
  ∃ a g1 reward coin,
    egreedy_policy R (qv_state v)
      (table_add (tbl (qv_run v)).1 (tbl (qv_run v)).2) epsilon
      (rnd (qv_run v)) = Ok (a, g1) ∧
    step E a (wld (qv_run v)) = (qv_state v', reward, d, wld (qv_run v')) ∧
    draw R g1 = (coin, rnd (qv_run v')) ∧
    (0 ≤ coin ∧ coin < 1)%Qc ∧
    ((coin < 1 / 2)%Qc →
       cross_updated (tbl (qv_run v)).1 (tbl (qv_run v)).2 (tbl (qv_run v')).1
         (qv_state v) a alpha gamma reward (qv_state v') ∧
       (tbl (qv_run v')).2 = (tbl (qv_run v)).2) ∧
    ((1 / 2 ≤ coin)%Qc →
       cross_updated (tbl (qv_run v)).2 (tbl (qv_run v)).1 (tbl (qv_run v')).2
         (qv_state v) a alpha gamma reward (qv_state v') ∧
       (tbl (qv_run v')).1 = (tbl (qv_run v)).1).
Proof.
  intros Hbody. apply double_body_Ok in Hbody
    as (a & g1 & s' & reward & w & coin & g2 & Q1' & Q2' & rewards
        & Hpol & Hstep & Hcoin & Hupd & _ & ->).
  exists a, g1, reward, coin. simpl.
  pose proof (draw_unit R g1) as Hunit. rewrite Hcoin in Hunit.
  simpl in Hunit. destruct Hunit.
  split_and!; try done; intros Hc; case_decide as Hc'.
  - destruct Hupd as (r_next & na & Hr & Hmax & HQ & ->). split; [|done].
    apply np_argmax_Ok in Hmax as (k & m & -> & Hmax).
    apply td_assign_updated in HQ as (boot & Hboot & Hupd).
    by exists r_next, k, m, boot.
  - done.
  - exfalso. by eapply Qcle_not_lt.
  - destruct Hupd as (r_next & na & Hr & Hmax & HQ & ->). split; [|done].
    apply np_argmax_Ok in Hmax as (k & m & -> & Hmax).
    apply td_assign_updated in HQ as (boot & Hboot & Hupd).
    by exists r_next, k, m, boot.
Qed.

(** C5. Double Q-learning executes, at every round, the action that
    [egreedy_policy] returns on the elementwise sum [Q1 + Q2]; with
    [epsilon = 0] that action is the first maximum of the sum of the two
    rows, which can differ from the first maximum of either row; and the
    table handed back is [(Q1 + Q2) / 2], entry by entry the mean of what
    the loop left in [Q1] and [Q2]. *)
Theorem double_selects_on_sum_returns_average :
  (∀ alpha gamma epsilon t (v : q_vars R E (table * table)) d v',
     double_body R E alpha gamma epsilon t v = Ok (d, v') →
     ∃ a g1 reward,
       egreedy_policy R (qv_state v)
         (table_add (tbl (qv_run v)).1 (tbl (qv_run v)).2) epsilon
         (rnd (qv_run v)) = Ok (a, g1) ∧
       step E a (wld (qv_run v))
         = (qv_state v', reward, d, wld (qv_run v'))) ∧
  (∀ (Q1 Q2 : table) s r1 r2,
     length Q1 = length Q2 → py_get Q1 s = Ok r1 → py_get Q2 s = Ok r2 →
     zip_with Qcplus r1 r2 ≠ [] →
     ∃ k x, first_max (zip_with Qcplus r1 r2) k x ∧
       ∀ g, egreedy_policy R s (table_add Q1 Q2) 0 g
              = Ok (Z.of_nat k, (draw R g).2)) ∧
  (∀ g,
     egreedy_policy R 0 (table_add lean_left lean_right) 0 g
       = Ok (2, (draw R g).2) ∧
     egreedy_policy R 0 lean_left 0 g = Ok (0, (draw R g).2) ∧
     egreedy_policy R 0 lean_right 0 g = Ok (1, (draw R g).2)) ∧
  (∀ fuel alpha gamma epsilon n w g r,
     double_qlearning R E fuel alpha gamma epsilon n w g = Ok r →
     ∃ r2, double_tables R E fuel alpha gamma epsilon n w g = Ok r2 ∧
       sum_rewards r = sum_rewards r2 ∧
       tbl r = table_halve (table_add (tbl r2).1 (tbl r2).2) ∧
       ∀ i j x y,
         entry (tbl r2).1 i j = Some x → entry (tbl r2).2 i j = Some y →
         entry (tbl r) i j = Some ((x + y) / 2)%Qc).
Proof.
  split_and!.
  - intros alpha gamma epsilon t v d v' Hbody.
    apply double_body_Ok in Hbody
      as (a & g1 & s' & reward & w & coin & g2 & Q1' & Q2' & rewards
          & Hpol & Hstep & _ & _ & _ & ->).
    by exists a, g1, reward.
  - intros Q1 Q2 s r1 r2 Hlen H1 H2 Hne.
    destruct (np_argmax_first_max _ Hne) as (k & x & _ & Hmax).
    exists k, x. split; [done|]. intros g.
    eapply egreedy_policy_greedy; [|done]. by apply table_add_py_get.
  - intros g. split_and!.
    + apply (egreedy_policy_greedy R 0 _ g
               [Qc_of_Z 3 + 0; 0 + Qc_of_Z 3; Qc_of_Z 2 + Qc_of_Z 2]%Qc
               2%nat (Qc_of_Z 2 + Qc_of_Z 2)%Qc); [done|first_max_tac].
    + apply (egreedy_policy_greedy R 0 _ g
               [Qc_of_Z 3; 0%Qc; Qc_of_Z 2] 0%nat (Qc_of_Z 3));
        [done|first_max_tac].
    + apply (egreedy_policy_greedy R 0 _ g
               [0%Qc; Qc_of_Z 3; Qc_of_Z 2] 1%nat (Qc_of_Z 3));
        [done|first_max_tac].
  - intros fuel alpha gamma epsilon n w g r. unfold double_qlearning.
    destruct (double_tables _ _ _ _ _ _ _ _ _) as [r2| |]; simpl; [|done..].
    destruct (tbl r2) as [Q1 Q2] eqn:Htbl. intros [= <-].
    exists r2. rewrite Htbl. simpl. split_and!; try done.
    intros i j x y Hx Hy. by apply table_halve_entry, table_add_entry.
Qed.

End Steps.

(** ** Loop rules *)

(** A [while True] loop whose state satisfies a ranked invariant [I k],
    with no state of rank 0, breaks within [k] rounds in a state
    satisfying [J]. *)
Lemma while_true_total {St} (body : St → result (bool * St))
    (I : nat → St → Prop) (J : St → Prop) :
  (∀ s, ¬ I O s) →
  (∀ k s, I (S k) s →
     ∃ d s', body s = Ok (d, s') ∧ if d : bool then J s' else I k s') →
  ∀ k fuel s, I k s → (k ≤ fuel)%nat →
    ∃ s', while_true fuel body s = Ok s' ∧ J s'.
Proof.
  intros H0 Hstep. induction k as [|k IH]; intros fuel s HI Hfuel.
  - by destruct (H0 s).
  - destruct fuel as [|fuel]; [lia|]. simpl.
    destruct (Hstep k s HI) as (d & s' & -> & Hd). simpl.
    destruct d; [eauto|]. apply IH; [done|lia].
Qed.

(** A [for t in range(n)] loop whose body carries [P t] to [P (t + 1)]. *)
Lemma for_each_seqZ_total {St} (body : Z → St → result St)
    (P : Z → St → Prop) :
  ∀ (len : nat) (m : Z) (s : St),
    (∀ i s, m ≤ i < m + Z.of_nat len → P i s →
       ∃ s', body i s = Ok s' ∧ P (i + 1) s') →
    P m s →
    ∃ s', for_each (seqZ m (Z.of_nat len)) body s = Ok s' ∧
          P (m + Z.of_nat len) s'.
Proof.
  induction len as [|len IH]; intros m s Hbody HP.
  - rewrite seqZ_nil by lia. simpl. exists s. by rewrite Z.add_0_r.
  - rewrite seqZ_cons by lia. simpl.
    destruct (Hbody m s ltac:(lia) HP) as (s1 & -> & HP1). simpl.
    replace (Z.pred (Z.of_nat (S len))) with (Z.of_nat len) by lia.
    destruct (IH (Z.succ m) s1) as (s2 & Hs2 & HP2).
    + intros i s0 Hi. apply Hbody. lia.
    + by replace (Z.succ m) with (m + 1) by lia.
    + exists s2. split; [done|].
      by replace (m + Z.of_nat (S len)) with (Z.succ m + Z.of_nat len) by lia.
Qed.

Lemma for_each_range_total {St} (body : Z → St → result St)
    (P : Z → St → Prop) (n : Z) (s : St) :
  (∀ i s, 0 ≤ i < n → P i s → ∃ s', body i s = Ok s' ∧ P (i + 1) s') →
  P 0 s →
  ∃ s', for_each (py_range n) body s = Ok s' ∧ P (Z.max 0 n) s'.
Proof.
  intros Hbody HP. unfold py_range.
  destruct (decide (0 ≤ n)) as [Hn|Hn].
  - destruct (for_each_seqZ_total body P (Z.to_nat n) 0 s) as (s' & Hs' & HP').
    + intros i s0 Hi. apply Hbody. lia.
    + done.
    + rewrite Z2Nat.id in Hs', HP' by done. exists s'. split; [done|].
      by replace (Z.max 0 n) with (0 + n) by lia.
  - rewrite seqZ_nil by lia. simpl. exists s.
    by replace (Z.max 0 n) with 0 by lia.
Qed.

(** ** Well-behaved environments *)

Lemma chain_valid : valid_env chain 2.
Proof.
  split.
  - done.
  - done.
  - intros w. simpl. lia.
  - intros a w _. simpl. lia.
  - intros w a _. right. intros a' _. by left.
Qed.

(** ** The learning loops run to completion on a valid environment *)

Section Totality.

Context (R : RandomSource) (E : Env) (horizon : nat).
Hypothesis Hvalid : valid_env E horizon.
Implicit Types (alpha gamma epsilon reward : Qc) (t : Z) (Q : table).

Let rows := Z.to_nat (nS E).
Let cols := Z.to_nat (nA E).

Lemma zero_value_valid : ∃ Q, zero_value E = Ok Q ∧ shaped rows cols Q.
Proof.
  destruct Hvalid. apply np_zeros_shaped; lia.
Qed.

Lemma egreedy_policy_valid Q s epsilon g :
  shaped rows cols Q → 0 ≤ s < nS E →
  ∃ a g', egreedy_policy R s Q epsilon g = Ok (a, g') ∧ 0 ≤ a < nA E.
Proof.
  intros HQ Hs. destruct Hvalid.
  destruct (shaped_py_get rows cols Q s) as (r & Hr & Hlen); [done|lia|].
  destruct (egreedy_policy_total R s Q epsilon g r) as (a & g' & Hpol & Ha).
  - done.
  - intros ->. simpl in Hlen. lia.
  - exists a, g'. split; [done|]. lia.
Qed.

Lemma np_argmax_valid Q s :
  shaped rows cols Q → 0 ≤ s < nS E →
  ∃ r a, py_get Q s = Ok r ∧ np_argmax r = Ok a ∧ 0 ≤ a < nA E.
Proof.
  intros HQ Hs. destruct Hvalid.
  destruct (shaped_py_get rows cols Q s) as (r & Hr & Hlen); [done|lia|].
  destruct (np_argmax_first_max r) as (k & x & Hk & Hmax%first_max_lt).
  - intros ->. simpl in Hlen. lia.
  - exists r, (Z.of_nat k). split_and!; [done..|lia|lia].
Qed.

Lemma td_assign_valid Qw Qr s a alpha gamma reward s' a' :
  shaped rows cols Qw → shaped rows cols Qr →
  0 ≤ s < nS E → 0 ≤ a < nA E → 0 ≤ s' < nS E → 0 ≤ a' < nA E →
  ∃ Q', td_assign Qw Qr s a alpha gamma reward s' a' = Ok Q' ∧
        shaped rows cols Q'.
Proof.
  intros Hw Hr Hs Ha Hs' Ha'.
  destruct (shaped_table_get rows cols Qw s a) as [old Hold]; [done|lia..|].
  destruct (shaped_table_get rows cols Qr s' a') as [boot Hboot]; [done|lia..|].
  destruct (td_assign_total Qw Qr s a alpha gamma reward s' a' old boot)
    as [Q' HQ']; [done..|].
  exists Q'. split; [done|]. by eapply td_assign_shaped.
Qed.

Lemma add_reward_valid (l : list Qc) t reward :
  0 ≤ t → length l = S (Z.to_nat t) →
  ∃ l', add_reward l t reward = Ok l' ∧ length l' = S (Z.to_nat t).
Proof.
  intros Ht Hlen. destruct (add_reward_total l t reward) as [l' Hl'].
  { unfold in_bounds. lia. }
  exists l'. split; [done|]. apply add_reward_Ok in Hl'. lia.
Qed.

Lemma sarsa_body_valid alpha gamma epsilon t k v :
  sarsa_inv t (S k) v →
  ∃ d v', sarsa_body R E alpha gamma epsilon t v = Ok (d, v') ∧
    if d : bool
    then between_episodes (shaped rows cols) (t + 1) (sv_run v')
    else sarsa_inv t k v'.
Proof.
  intros [(Ht & HQ & Hlen & Hs & Hends) Ha]. unfold sarsa_body.
  pose proof (valid_step E horizon Hvalid _ (wld (sv_run v)) Ha) as Hs'.
  specialize (Hends _ Ha).
  destruct (step E _ _) as [[[s' reward] done] w]; simpl in *.
  destruct (egreedy_policy_valid (tbl (sv_run v)) s' epsilon (rnd (sv_run v)))
    as (a' & g' & -> & Ha'); [done..|]. simpl.
  destruct (td_assign_valid (tbl (sv_run v)) (tbl (sv_run v)) (sv_state v)
              (sv_action v) alpha gamma reward s' a')
    as (Q' & -> & HQ'); [done..|]. simpl.
  destruct (add_reward_valid (sum_rewards (sv_run v)) t reward)
    as (l' & -> & Hl'); [done..|]. simpl.
  eexists _, _. split; [done|]. destruct done.
  - split_and!; simpl; [lia|done|rewrite Hl'; lia].
  - destruct Hends as [|Hends]; [done|].
    destruct HQ'. repeat split; simpl; try done; lia.
Qed.

Lemma sarsa_episode_valid fuel alpha gamma epsilon t r :
  (horizon ≤ fuel)%nat →
  between_episodes (shaped rows cols) t r →
  ∃ r', sarsa_episode R E fuel alpha gamma epsilon t r = Ok r' ∧
        between_episodes (shaped rows cols) (t + 1) r'.
Proof.
  intros Hfuel (Ht & HQ & Hlen). unfold sarsa_episode.
  pose proof (valid_reset E horizon Hvalid (wld r)) as Hs.
  pose proof (valid_ends E horizon Hvalid (wld r)) as Hends.
  destruct (reset E (wld r)) as [state w]; simpl in *.
  destruct (egreedy_policy_valid (tbl r) state epsilon (rnd r))
    as (a & g & -> & Ha); [done..|]. simpl.
  destruct (while_true_total (sarsa_body R E alpha gamma epsilon t)
              (sarsa_inv t)
              (λ v, between_episodes (shaped rows cols) (t + 1) (sv_run v)))
    with (k := horizon) (fuel := fuel)
         (s := SarsaVars state a (Run (tbl r) (sum_rewards r ++ [0%Qc]) w g))
    as (v & -> & Hv).
  - by intros v [(_ & _ & _ & _ & []) _].
  - intros k v. apply sarsa_body_valid.
  - destruct HQ. repeat split; simpl; try done; try lia.
    rewrite length_app; simpl. lia.
  - done.
  - simpl. eauto.
Qed.

Lemma sarsa_total fuel alpha gamma epsilon n w g :
  (horizon ≤ fuel)%nat →
  ∃ r, sarsa R E fuel alpha gamma epsilon n w g = Ok r ∧
       shaped rows cols (tbl r) ∧
       length (sum_rewards r) = Z.to_nat n.
Proof.
  intros Hfuel. unfold sarsa.
  destruct zero_value_valid as (Q0 & -> & HQ0). simpl.
  destruct (for_each_range_total (sarsa_episode R E fuel alpha gamma epsilon)
              (between_episodes (shaped rows cols)) n (Run Q0 [] w g))
    as (r & -> & _ & HQ & Hlen).
  - intros i r _. by apply sarsa_episode_valid.
  - by split_and!.
  - exists r. split_and!; [done..|]. rewrite Hlen. lia.
Qed.

Lemma qlearning_body_valid alpha gamma epsilon t k (v : q_vars R E table) :
  within_episode (shaped rows cols) t (S k) (qv_state v) (qv_run v) →
  ∃ d v', qlearning_body R E alpha gamma epsilon t v = Ok (d, v') ∧
    if d : bool
    then between_episodes (shaped rows cols) (t + 1) (qv_run v')
    else within_episode (shaped rows cols) t k (qv_state v') (qv_run v').
Proof.
  intros (Ht & HQ & Hlen & Hs & Hends). unfold qlearning_body.
  destruct (egreedy_policy_valid (tbl (qv_run v)) (qv_state v) epsilon
              (rnd (qv_run v))) as (a & g' & -> & Ha); [done..|]. simpl.
  pose proof (valid_step E horizon Hvalid _ (wld (qv_run v)) Ha) as Hs'.
  specialize (Hends _ Ha).
  destruct (step E _ _) as [[[s' reward] done] w]; simpl in *.
  destruct (np_argmax_valid (tbl (qv_run v)) s')
    as (r_next & na & Hr & Hmax & Hna); [done..|].
    rewrite Hr; simpl; rewrite Hmax; simpl.
  destruct (td_assign_valid (tbl (qv_run v)) (tbl (qv_run v)) (qv_state v)
              a alpha gamma reward s' na)
    as (Q' & -> & HQ'); [done..|]. simpl.
  destruct (add_reward_valid (sum_rewards (qv_run v)) t reward)
    as (l' & -> & Hl'); [done..|]. simpl.
  eexists _, _. split; [done|]. destruct done.
  - split_and!; simpl; [lia|done|rewrite Hl'; lia].
  - destruct Hends as [|Hends]; [done|].
    destruct HQ'. repeat split; simpl; try done; lia.
Qed.

Lemma qlearning_episode_valid fuel alpha gamma epsilon t r :
  (horizon ≤ fuel)%nat →
  between_episodes (shaped rows cols) t r →
  ∃ r', qlearning_episode R E fuel alpha gamma epsilon t r = Ok r' ∧
        between_episodes (shaped rows cols) (t + 1) r'.
Proof.
  intros Hfuel (Ht & HQ & Hlen). unfold qlearning_episode.
  pose proof (valid_reset E horizon Hvalid (wld r)) as Hs.
  pose proof (valid_ends E horizon Hvalid (wld r)) as Hends.
  destruct (reset E (wld r)) as [state w]; simpl in *.
  destruct (while_true_total (qlearning_body R E alpha gamma epsilon t)
              (λ k v, within_episode (shaped rows cols) t k
                        (qv_state v) (qv_run v))
              (λ v, between_episodes (shaped rows cols) (t + 1) (qv_run v)))
    with (k := horizon) (fuel := fuel)
         (s := QVars state (Run (tbl r) (sum_rewards r ++ [0%Qc]) w (rnd r)))
    as (v & -> & Hv).
  - by intros v (_ & _ & _ & _ & []).
  - intros k v. apply qlearning_body_valid.
  - destruct HQ. repeat split; simpl; try done; try lia.
    rewrite length_app; simpl. lia.
  - done.
  - simpl. eauto.
Qed.

Lemma qlearning_total fuel alpha gamma epsilon n w g :
  (horizon ≤ fuel)%nat →
  ∃ r, qlearning R E fuel alpha gamma epsilon n w g = Ok r ∧
       shaped rows cols (tbl r) ∧
       length (sum_rewards r) = Z.to_nat n.
Proof.
  intros Hfuel. unfold qlearning.
  destruct zero_value_valid as (Q0 & -> & HQ0). simpl.
  destruct (for_each_range_total
              (qlearning_episode R E fuel alpha gamma epsilon)
              (between_episodes (shaped rows cols)) n (Run Q0 [] w g))
    as (r & -> & _ & HQ & Hlen).
  - intros i r _. by apply qlearning_episode_valid.
  - by split_and!.
  - exists r. split_and!; [done..|]. rewrite Hlen. lia.
Qed.

Lemma double_body_valid alpha gamma epsilon t k
    (v : q_vars R E (table * table)) :
  within_episode (both_shaped E) t (S k) (qv_state v) (qv_run v) →
  ∃ d v', double_body R E alpha gamma epsilon t v = Ok (d, v') ∧
    if d : bool
    then between_episodes (both_shaped E) (t + 1) (qv_run v')
    else within_episode (both_shaped E) t k (qv_state v') (qv_run v').
Proof.
  intros (Ht & [HQ1 HQ2] & Hlen & Hs & Hends). unfold double_body.
  destruct (tbl (qv_run v)) as [Q1 Q2]; simpl in *.
  destruct (egreedy_policy_valid (table_add Q1 Q2) (qv_state v) epsilon
              (rnd (qv_run v))) as (a & g' & -> & Ha);
    [by apply table_add_shaped|done|]. simpl.
  pose proof (valid_step E horizon Hvalid _ (wld (qv_run v)) Ha) as Hs'.
  specialize (Hends _ Ha).
  destruct (step E _ _) as [[[s' reward] done] w]; simpl in *.
  destruct (draw R g') as [coin g2].
  destruct (add_reward_valid (sum_rewards (qv_run v)) t reward)
    as (l' & Hl & Hl'); [done..|].
  case_decide.
  - destruct (np_argmax_valid Q1 s')
      as (r_next & na & Hr & Hmax & Hna); [done..|].
    rewrite Hr; simpl; rewrite Hmax; simpl.
    destruct (td_assign_valid Q1 Q2 (qv_state v) a alpha gamma reward s' na)
      as (Q' & -> & HQ'); [done..|]. simpl. rewrite Hl. simpl.
    eexists _, _. split; [done|]. destruct done.
    + repeat split; simpl; try done; try lia; apply HQ' || apply HQ2.
    + destruct Hends as [|Hends]; [done|].
      repeat split; simpl; try done; try lia; apply HQ' || apply HQ2.
  - destruct (np_argmax_valid Q2 s')
      as (r_next & na & Hr & Hmax & Hna); [done..|].
    rewrite Hr; simpl; rewrite Hmax; simpl.
    destruct (td_assign_valid Q2 Q1 (qv_state v) a alpha gamma reward s' na)
      as (Q' & -> & HQ'); [done..|]. simpl. rewrite Hl. simpl.
    eexists _, _. split; [done|]. destruct done.
    + repeat split; simpl; try done; try lia; apply HQ' || apply HQ1.
    + destruct Hends as [|Hends]; [done|].
      repeat split; simpl; try done; try lia; apply HQ' || apply HQ1.
Qed.

Lemma double_episode_valid fuel alpha gamma epsilon t r :
  (horizon ≤ fuel)%nat →
  between_episodes (both_shaped E) t r →
  ∃ r', double_episode R E fuel alpha gamma epsilon t r = Ok r' ∧
        between_episodes (both_shaped E) (t + 1) r'.
Proof.
  intros Hfuel (Ht & HQ & Hlen). unfold double_episode.
  pose proof (valid_reset E horizon Hvalid (wld r)) as Hs.
  pose proof (valid_ends E horizon Hvalid (wld r)) as Hends.
  destruct (reset E (wld r)) as [state w]; simpl in *.
  destruct (while_true_total (double_body R E alpha gamma epsilon t)
              (λ k v, within_episode (both_shaped E) t k (qv_state v) (qv_run v))
              (λ v, between_episodes (both_shaped E) (t + 1) (qv_run v)))
    with (k := horizon) (fuel := fuel)
         (s := QVars state (Run (tbl r) (sum_rewards r ++ [0%Qc]) w (rnd r)))
    as (v & -> & Hv).
  - by intros v (_ & _ & _ & _ & []).
  - intros k v. apply double_body_valid.
  - split_and!; simpl; try done; try lia.
    rewrite length_app; simpl. lia.
  - done.
  - simpl. eauto.
Qed.

Lemma double_tables_total fuel alpha gamma epsilon n w g :
  (horizon ≤ fuel)%nat →
  ∃ r, double_tables R E fuel alpha gamma epsilon n w g = Ok r ∧
       (both_shaped E) (tbl r) ∧
       length (sum_rewards r) = Z.to_nat n.
Proof.
  intros Hfuel. unfold double_tables.
  destruct zero_value_valid as (Q0 & -> & HQ0). simpl.
  destruct (for_each_range_total
              (double_episode R E fuel alpha gamma epsilon)
              (between_episodes (both_shaped E)) n (Run (Q0, Q0) [] w g))
    as (r & -> & _ & HQ & Hlen).
  - intros i r _. by apply double_episode_valid.
  - by split_and!.
  - exists r. split_and!; [done..|]. rewrite Hlen. lia.
Qed.

Lemma double_qlearning_total fuel alpha gamma epsilon n w g :
  (horizon ≤ fuel)%nat →
  ∃ r, double_qlearning R E fuel alpha gamma epsilon n w g = Ok r ∧
       length (sum_rewards r) = Z.to_nat n.
Proof.
  intros Hfuel. unfold double_qlearning.
  destruct (double_tables_total fuel alpha gamma epsilon n w g Hfuel)
    as (r & -> & _ & Hlen). simpl.
  destruct (tbl r) as [Q1 Q2]. eexists. split; [done|]. done.
Qed.

End Totality.

(** ** The concrete two-state scenario *)

Section Scenario.

Context (R : RandomSource).

(** On a row of equal entries the greedy choice is action 0. *)
Lemma greedy_flat_row s (Q : table) g x l :
  py_get Q s = Ok (x :: l) → Forall (λ y, y = x) l →
  egreedy_policy R s Q 0 g = Ok (0, (draw R g).2).
Proof.
  intros Hr Hall. apply (egreedy_policy_greedy R s Q g (x :: l) 0%nat x Hr).
  split_and!; [done| |intros; lia].
  intros [|j] y Hy; simplify_eq/=; [apply Qcle_refl|].
  rewrite (Forall_lookup_1 _ _ _ _ Hall Hy). apply Qcle_refl.
Qed.

Lemma first_update_value : table_get first_update 0 0 = Ok (1 / 2)%Qc.
Proof. vm_compute. apply f_equal, Qc_is_canon. reflexivity. Qed.

Lemma scenario_sarsa_body (g : gen R) :
  sarsa_body R two_state (1 / 2) 1 0 0
    (SarsaVars (E:=two_state) 0 0 (Run (E:=two_state) zeros2 [0%Qc] 0 g))
  = Ok (true, SarsaVars (E:=two_state) 1 0
                (Run (E:=two_state) first_update [(0 + 1)%Qc] 1 (draw R g).2)).
Proof.
  unfold sarsa_body.
  cbn [sv_action sv_run sv_state wld tbl rnd sum_rewards step two_state].
  change (two_state_step 0 0) with (1, 1%Qc, true, 1). cbn iota beta.
  rewrite (greedy_flat_row 1 zeros2 g 0%Qc [0%Qc]) by (by repeat constructor).
  reflexivity.
Qed.

Lemma scenario_sarsa fuel w g :
  ∃ rs, sarsa R two_state (S fuel) (1 / 2) 1 0 1 w g = Ok rs ∧
        tbl rs = first_update.
Proof.
  eexists. split.
  - unfold sarsa. change (zero_value two_state) with (Ok zeros2).
    change (py_range 1) with [0]. cbn [mbind result_bind for_each].
    unfold sarsa_episode.
    cbn [reset two_state tbl rnd wld sum_rewards app].
    rewrite (greedy_flat_row 0 zeros2 g 0%Qc [0%Qc])
      by (by repeat constructor).
    cbn [mbind result_bind while_true]. rewrite scenario_sarsa_body.
    reflexivity.
  - reflexivity.
Qed.

Lemma scenario_qlearning_body (g : gen R) :
  qlearning_body R two_state (1 / 2) 1 0 0
    (QVars (E:=two_state) 0 (Run (E:=two_state) zeros2 [0%Qc] 0 g))
  = Ok (true, QVars (E:=two_state) 1
                (Run (E:=two_state) first_update [(0 + 1)%Qc] 1 (draw R g).2)).
Proof.
  unfold qlearning_body.
  cbn [qv_run qv_state wld tbl rnd sum_rewards step two_state].
  rewrite (greedy_flat_row 0 zeros2 g 0%Qc [0%Qc]) by (by repeat constructor).
  reflexivity.
Qed.

Lemma scenario_qlearning fuel w g :
  ∃ rq, qlearning R two_state (S fuel) (1 / 2) 1 0 1 w g = Ok rq ∧
        tbl rq = first_update.
Proof.
  eexists. split.
  - unfold qlearning. change (zero_value two_state) with (Ok zeros2).
    change (py_range 1) with [0]. cbn [mbind result_bind for_each].
    unfold qlearning_episode.
    cbn [reset two_state tbl rnd wld sum_rewards app].
    cbn [mbind result_bind while_true]. rewrite scenario_qlearning_body.
    reflexivity.
  - reflexivity.
Qed.

Lemma scenario_double_body (g : gen R) :
  double_body R two_state (1 / 2) 1 0 0
    (QVars (E:=two_state) 0 (Run (E:=two_state) (zeros2, zeros2) [0%Qc] 0 g))
  = Ok (true, QVars (E:=two_state) 1
                (Run (E:=two_state)
                   (coin_tables (draw R (draw R g).2).1)
                   [(0 + 1)%Qc] 1 (draw R (draw R g).2).2)).
Proof.
  unfold double_body, coin_tables.
  cbn [qv_run qv_state wld tbl rnd sum_rewards step two_state].
  rewrite (greedy_flat_row 0 _ g (0 + 0)%Qc [(0 + 0)%Qc])
    by (by repeat constructor).
  cbn [mbind result_bind].
  change (two_state_step 0 0) with (1, 1%Qc, true, 1). cbn iota beta.
  destruct (draw R (draw R g).2) as [coin g2]. cbn [fst snd].
  by case_decide.
Qed.

Lemma scenario_double_tables fuel w g :
  ∃ rt, double_tables R two_state (S fuel) (1 / 2) 1 0 1 w g = Ok rt ∧
        tbl rt = coin_tables (draw R (draw R g).2).1 ∧
        sum_rewards rt = [(0 + 1)%Qc].
Proof.
  eexists. split.
  - unfold double_tables. change (zero_value two_state) with (Ok zeros2).
    change (py_range 1) with [0]. cbn [mbind result_bind for_each].
    unfold double_episode.
    cbn [reset two_state tbl rnd wld sum_rewards app].
    cbn [mbind result_bind while_true]. rewrite scenario_double_body.
    reflexivity.
  - split; reflexivity.
Qed.

Lemma coin_tables_values coin :
  table_get (coin_tables coin).1 0 0 = Ok (1 / 2)%Qc ∧
    table_get (coin_tables coin).2 0 0 = Ok 0%Qc
  ∨ table_get (coin_tables coin).1 0 0 = Ok 0%Qc ∧
    table_get (coin_tables coin).2 0 0 = Ok (1 / 2)%Qc.
Proof.
  unfold coin_tables. case_decide; [left|right]; simpl;
    split; try apply first_update_value; reflexivity.
Qed.

Lemma coin_tables_average coin :
  table_get (table_halve (table_add (coin_tables coin).1 (coin_tables coin).2))
    0 0 = Ok (Q2Qc (1 # 4)).
Proof.
  unfold coin_tables. case_decide; vm_compute;
    apply f_equal, Qc_is_canon; reflexivity.
Qed.

Lemma scenario_double fuel w g :
  ∃ rd, double_qlearning R two_state (S fuel) (1 / 2) 1 0 1 w g = Ok rd ∧
        table_get (tbl rd) 0 0 = Ok (Q2Qc (1 # 4)).
Proof.
  destruct (scenario_double_tables fuel w g) as (rt & Hrt & Htbl & _).
  unfold double_qlearning. rewrite Hrt. cbn [mbind result_bind].
  pose proof (coin_tables_average (draw R (draw R g).2).1) as Havg.
  rewrite <-Htbl in Havg. destruct (tbl rt) as [Q1 Q2]. eauto.
Qed.

End Scenario.

(** ** The scenario, for every random source *)

(** C9 (as amended). In the two-state scenario with [alpha = 1/2],
    [gamma = 1], [epsilon = 0] and one episode, every algorithm starts with
    action 0 and performs the single update [0 + 1/2 * (1 + 1 * 0 - 0)].
    SARSA and Q-learning return a table with [table[0,0] = 1/2]. Double
    Q-learning leaves [1/2] in whichever of its two tables the coin selected
    and [0] in the other, and the average it returns has [table[0,0] = 1/4]. *)
Theorem scenario_first_episode (R : RandomSource) fuel w g :
  ∃ rs rq rt rd,
    sarsa R two_state (S fuel) (1 / 2) 1 0 1 w g = Ok rs ∧
    qlearning R two_state (S fuel) (1 / 2) 1 0 1 w g = Ok rq ∧
    double_tables R two_state (S fuel) (1 / 2) 1 0 1 w g = Ok rt ∧
    double_qlearning R two_state (S fuel) (1 / 2) 1 0 1 w g = Ok rd ∧
    table_get (tbl rs) 0 0 = Ok (1 / 2)%Qc ∧
    table_get (tbl rq) 0 0 = Ok (1 / 2)%Qc ∧
    (table_get (tbl rt).1 0 0 = Ok (1 / 2)%Qc ∧
       table_get (tbl rt).2 0 0 = Ok 0%Qc
     ∨ table_get (tbl rt).1 0 0 = Ok 0%Qc ∧
       table_get (tbl rt).2 0 0 = Ok (1 / 2)%Qc) ∧
    table_get (tbl rd) 0 0 = Ok (Q2Qc (1 # 4)).
Proof.
  destruct (scenario_sarsa R fuel w g) as (rs & Hrs & Hs).
  destruct (scenario_qlearning R fuel w g) as (rq & Hrq & Hq).
  destruct (scenario_double_tables R fuel w g) as (rt & Hrt & Ht & _).
  destruct (scenario_double R fuel w g) as (rd & Hrd & Hd).
  exists rs, rq, rt, rd. rewrite Hs, Hq, Ht.
  split_and!; try done; try apply first_update_value.
  apply coin_tables_values.
Qed.

(** C9 fails as stated for double Q-learning: the table it returns after
    the scenario's single episode holds [1/4] at [(0, 0)], not [1/2]. *)
Lemma double_scenario_returns_quarter :
  ∃ rd, double_qlearning lcg two_state 1 (1 / 2) 1 0 1 0 42 = Ok rd ∧
        table_get (tbl rd) 0 0 = Ok (Q2Qc (1 # 4)) ∧
        table_get (tbl rd) 0 0 ≠ Ok (1 / 2)%Qc.
Proof.
  destruct (scenario_double lcg 0 0 42) as (rd & Hrd & Hd).
  exists rd. split_and!; [done..|]. rewrite Hd. intros [=].
Qed.

(** ** The reward trace grows by one entry per episode *)

Lemma while_true_inv {St} (body : St → result (bool * St)) (I : St → Prop) :
  (∀ s d s', I s → body s = Ok (d, s') → I s') →
  ∀ fuel s s', I s → while_true fuel body s = Ok s' → I s'.
Proof.
  intros Hbody. induction fuel as [|fuel IH]; intros s s' HI; simpl; [done|].
  destruct (body s) as [[d s1]| |] eqn:Hs; simpl; [|done..].
  specialize (Hbody _ _ _ HI Hs). destruct d; [by intros [= <-]|by apply IH].
Qed.

Lemma for_each_inv {St} (body : Z → St → result St) (P : nat → St → Prop) :
  (∀ i k s s', P k s → body i s = Ok s' → P (S k) s') →
  ∀ ts k s s', P k s → for_each ts body s = Ok s' → P (k + length ts)%nat s'.
Proof.
  intros Hbody. induction ts as [|t ts IH]; intros k s s' HP; simpl.
  - intros [= <-]. by rewrite Nat.add_0_r.
  - destruct (body t s) as [s1| |] eqn:Hs; simpl; [|done..].
    intros Hs'. replace (k + S (length ts))%nat with (S k + length ts)%nat
      by lia. eapply IH; [|done]. by eapply Hbody.
Qed.

Lemma py_range_length n : length (py_range n) = Z.to_nat n.
Proof. unfold py_range. by rewrite length_seqZ. Qed.

Section TraceLength.

Context (R : RandomSource) (E : Env).

Lemma sarsa_episode_trace fuel alpha gamma epsilon t (r r' : run R E table) :
  sarsa_episode R E fuel alpha gamma epsilon t r = Ok r' →
  length (sum_rewards r') = S (length (sum_rewards r)).
Proof.
  unfold sarsa_episode. destruct (reset E (wld r)) as [state w].
  destruct (egreedy_policy _ _ _ _ _) as [[a g]| |]; simpl; [|done..].
  destruct (while_true _ _ _) as [v| |] eqn:Hloop; simpl; [|done..].
  intros [= <-].
  apply (while_true_inv _
           (λ v, length (sum_rewards (sv_run v)) = S (length (sum_rewards r))))
    in Hloop; [done| |].
  - intros v0 d v1 Hlen Hbody. apply sarsa_body_Ok in Hbody
      as (? & ? & ? & ? & ? & ? & rewards & _ & _ & _ & Hrew & ->).
    simpl. apply add_reward_Ok in Hrew. congruence.
  - simpl. rewrite length_app. simpl. lia.
Qed.

Lemma qlearning_episode_trace fuel alpha gamma epsilon t
    (r r' : run R E table) :
  qlearning_episode R E fuel alpha gamma epsilon t r = Ok r' →
  length (sum_rewards r') = S (length (sum_rewards r)).
Proof.
  unfold qlearning_episode. destruct (reset E (wld r)) as [state w].
  destruct (while_true _ _ _) as [v| |] eqn:Hloop; simpl; [|done..].
  intros [= <-].
  apply (while_true_inv _
           (λ v, length (sum_rewards (qv_run v)) = S (length (sum_rewards r))))
    in Hloop; [done| |].
  - intros v0 d v1 Hlen Hbody. apply qlearning_body_Ok in Hbody
      as (? & ? & ? & ? & ? & ? & ? & ? & rewards
          & _ & _ & _ & _ & _ & Hrew & ->).
    simpl. apply add_reward_Ok in Hrew. congruence.
  - simpl. rewrite length_app. simpl. lia.
Qed.

Lemma double_episode_trace fuel alpha gamma epsilon t
    (r r' : run R E (table * table)) :
  double_episode R E fuel alpha gamma epsilon t r = Ok r' →
  length (sum_rewards r') = S (length (sum_rewards r)).
Proof.
  unfold double_episode. destruct (reset E (wld r)) as [state w].
  destruct (while_true _ _ _) as [v| |] eqn:Hloop; simpl; [|done..].
  intros [= <-].
  apply (while_true_inv _
           (λ v, length (sum_rewards (qv_run v)) = S (length (sum_rewards r))))
    in Hloop; [done| |].
  - intros v0 d v1 Hlen Hbody. apply double_body_Ok in Hbody
      as (? & ? & ? & ? & ? & ? & ? & ? & ? & rewards
          & _ & _ & _ & _ & Hrew & ->).
    simpl. apply add_reward_Ok in Hrew. congruence.
  - simpl. rewrite length_app. simpl. lia.
Qed.

Lemma sarsa_trace fuel alpha gamma epsilon n w g r :
  sarsa R E fuel alpha gamma epsilon n w g = Ok r →
  length (sum_rewards r) = Z.to_nat n.
Proof.
  unfold sarsa. destruct (zero_value E) as [Q0| |]; simpl; [|done..].
  intros Hr. rewrite <-(py_range_length n).
  apply (for_each_inv _ (λ k r, length (sum_rewards r) = k)) with (k := O)
    in Hr; [done| |done].
  intros i k s s' <- Hs. by eapply sarsa_episode_trace.
Qed.

Lemma qlearning_trace fuel alpha gamma epsilon n w g r :
  qlearning R E fuel alpha gamma epsilon n w g = Ok r →
  length (sum_rewards r) = Z.to_nat n.
Proof.
  unfold qlearning. destruct (zero_value E) as [Q0| |]; simpl; [|done..].
  intros Hr. rewrite <-(py_range_length n).
  apply (for_each_inv _ (λ k r, length (sum_rewards r) = k)) with (k := O)
    in Hr; [done| |done].
  intros i k s s' <- Hs. by eapply qlearning_episode_trace.
Qed.

Lemma double_qlearning_trace fuel alpha gamma epsilon n w g r :
  double_qlearning R E fuel alpha gamma epsilon n w g = Ok r →
  length (sum_rewards r) = Z.to_nat n.
Proof.
  unfold double_qlearning, double_tables.
  destruct (zero_value E) as [Q0| |]; simpl; [|done..].
  destruct (for_each _ _ _) as [r2| |] eqn:Hr; simpl; [|done..].
  destruct (tbl r2) as [Q1 Q2]. intros [= <-]. simpl.
  rewrite <-(py_range_length n).
  apply (for_each_inv _ (λ k r, length (sum_rewards r) = k)) with (k := O)
    in Hr; [done| |done].
  intros i k s s' <- Hs. by eapply double_episode_trace.
Qed.

End TraceLength.

(** ** Whole runs *)

(** C8. For a positive episode count [n], whenever one of the three
    algorithms returns, its reward trace has exactly [n] entries; and on a
    valid environment, with a step budget that covers its horizon, all three
    do return. *)
Theorem reward_trace_length (R : RandomSource) (E : Env) horizon fuel
    alpha gamma epsilon n w g :
  valid_env E horizon → (horizon ≤ fuel)%nat → 0 < n →
  (∃ rs rq rd,
     sarsa R E fuel alpha gamma epsilon n w g = Ok rs ∧
     qlearning R E fuel alpha gamma epsilon n w g = Ok rq ∧
     double_qlearning R E fuel alpha gamma epsilon n w g = Ok rd) ∧
  (∀ E' fuel' w' r,
     sarsa R E' fuel' alpha gamma epsilon n w' g = Ok r ∨
     qlearning R E' fuel' alpha gamma epsilon n w' g = Ok r ∨
     double_qlearning R E' fuel' alpha gamma epsilon n w' g = Ok r →
     Z.of_nat (length (sum_rewards r)) = n).
Proof.
  intros Hvalid Hfuel Hn. split.
  - destruct (sarsa_total R E horizon Hvalid fuel alpha gamma epsilon n w g
                Hfuel) as (rs & Hrs & _).
    destruct (qlearning_total R E horizon Hvalid fuel alpha gamma epsilon n w g
                Hfuel) as (rq & Hrq & _).
    destruct (double_qlearning_total R E horizon Hvalid fuel alpha gamma
                epsilon n w g Hfuel) as (rd & Hrd & _).
    by exists rs, rq, rd.
  - intros E' fuel' w' r [Hr|[Hr|Hr]].
    + apply sarsa_trace in Hr. lia.
    + apply qlearning_trace in Hr. lia.
    + apply double_qlearning_trace in Hr. lia.
Qed.

Lemma reward_trace_length_witness :
  ∃ rs rq rd,
    sarsa lcg chain 2 (1 / 2) 1 (1 / 2) 3 0 42 = Ok rs ∧
    qlearning lcg chain 2 (1 / 2) 1 (1 / 2) 3 0 42 = Ok rq ∧
    double_qlearning lcg chain 2 (1 / 2) 1 (1 / 2) 3 0 42 = Ok rd ∧
    Z.of_nat (length (sum_rewards rs)) = 3 ∧
    Z.of_nat (length (sum_rewards rq)) = 3 ∧
    Z.of_nat (length (sum_rewards rd)) = 3.
Proof.
  destruct (reward_trace_length lcg chain 2 2 (1 / 2) 1 (1 / 2) 3 0 42)
    as [(rs & rq & rd & Hs & Hq & Hd) Hlen]; [exact chain_valid|lia|lia|].
  exists rs, rq, rd. split_and!; [done..| | |].
  - apply (Hlen chain 2%nat 0 rs). by left.
  - apply (Hlen chain 2%nat 0 rq). by right; left.
  - apply (Hlen chain 2%nat 0 rd). by right; right.
Defined.

(** C1 fails as stated: calls with [alpha = 2], with [gamma = 2], with
    [epsilon = -1] and with zero episodes all return a result. *)
Lemma invalid_configuration_accepted :
  ¬ (2 ≤ 1)%Qc ∧ ¬ (0 ≤ -1)%Qc ∧ ¬ 0 < 0 ∧
  (∃ r, sarsa lcg chain 2 2 1 0 1 0 42 = Ok r) ∧
  (∃ r, qlearning lcg chain 2 1 2 0 1 0 42 = Ok r) ∧
  (∃ r, double_qlearning lcg chain 2 1 1 (-1) 1 0 42 = Ok r) ∧
  (∃ r, sarsa lcg chain 2 1 1 0 0 0 42 = Ok r).
Proof.
  split_and!.
  - intros H. by vm_compute in H.
  - intros H. by vm_compute in H.
  - lia.
  - destruct (sarsa_total lcg chain 2 chain_valid 2 2 1 0 1 0 42)
      as (r & Hr & _); eauto.
  - destruct (qlearning_total lcg chain 2 chain_valid 2 1 2 0 1 0 42)
      as (r & Hr & _); eauto.
  - destruct (double_qlearning_total lcg chain 2 chain_valid 2 1 1 (-1) 1 0 42)
      as (r & Hr & _); eauto.
  - destruct (sarsa_total lcg chain 2 chain_valid 2 1 1 0 0 0 42)
      as (r & Hr & _); eauto.
Qed.

(** C1 (as amended). The three algorithms check none of [alpha], [gamma],
    [epsilon] and the episode count: on a valid environment every call
    returns a table and a reward trace, whatever these values are, and with a
    non-positive episode count it returns the zero table and the empty trace
    without touching the environment or the random source. *)
Theorem configuration_not_validated (R : RandomSource) (E : Env) horizon fuel
    alpha gamma epsilon n w g :
  valid_env E horizon → (horizon ≤ fuel)%nat →
  (∃ rs rq rd,
     sarsa R E fuel alpha gamma epsilon n w g = Ok rs ∧
     qlearning R E fuel alpha gamma epsilon n w g = Ok rq ∧
     double_qlearning R E fuel alpha gamma epsilon n w g = Ok rd) ∧
  (n ≤ 0 →
   ∃ Q0, zero_value E = Ok Q0 ∧
     sarsa R E fuel alpha gamma epsilon n w g = Ok (Run Q0 [] w g) ∧
     qlearning R E fuel alpha gamma epsilon n w g = Ok (Run Q0 [] w g) ∧
     double_qlearning R E fuel alpha gamma epsilon n w g
       = Ok (Run (table_halve (table_add Q0 Q0)) [] w g)).
Proof.
  intros Hvalid Hfuel. split.
  - destruct (sarsa_total R E horizon Hvalid fuel alpha gamma epsilon n w g
                Hfuel) as (rs & Hrs & _).
    destruct (qlearning_total R E horizon Hvalid fuel alpha gamma epsilon n w g
                Hfuel) as (rq & Hrq & _).
    destruct (double_qlearning_total R E horizon Hvalid fuel alpha gamma
                epsilon n w g Hfuel) as (rd & Hrd & _).
    by exists rs, rq, rd.
  - intros Hn. destruct (zero_value_valid E horizon Hvalid) as (Q0 & HQ0 & _).
    exists Q0. unfold sarsa, qlearning, double_qlearning, double_tables, py_range.
    rewrite HQ0, seqZ_nil by done. by split_and!.
Qed.

Lemma configuration_not_validated_witness :
  (∃ rs rq rd,
     sarsa lcg chain 2 2 2 (-1) 0 0 42 = Ok rs ∧
     qlearning lcg chain 2 2 2 (-1) 0 0 42 = Ok rq ∧
     double_qlearning lcg chain 2 2 2 (-1) 0 0 42 = Ok rd) ∧
  (∃ Q0, zero_value chain = Ok Q0 ∧
     sarsa lcg chain 2 2 2 (-1) 0 0 42 = Ok (Run (R:=lcg) (E:=chain) Q0 [] 0 42) ∧
     qlearning lcg chain 2 2 2 (-1) 0 0 42 = Ok (Run (R:=lcg) (E:=chain) Q0 [] 0 42) ∧
     double_qlearning lcg chain 2 2 2 (-1) 0 0 42
       = Ok (Run (R:=lcg) (E:=chain) (table_halve (table_add Q0 Q0)) [] 0 42)).
Proof.
  destruct (configuration_not_validated lcg chain 2 2 2 2 (-1) 0 0 42)
    as [Hruns Hzero]; [exact chain_valid|lia|].
  split; [exact Hruns|apply Hzero; lia].
Defined.

(** ** The step theorems at concrete rounds *)

Lemma sarsa_step_on_policy_witness :
  ∃ d v',
    sarsa_body lcg two_state (1 / 2) 1 0 0 sarsa_round = Ok (d, v') ∧
    ∃ a' boot,
      egreedy_policy lcg 0 zeros2 0 42 = Ok (a', rnd (sv_run v')) ∧
      table_get zeros2 0 a' = Ok boot ∧
      td_updated zeros2 (tbl (sv_run v')) 0 1 (1 / 2) (0 + 1 * boot)%Qc ∧
      sv_state v' = 0 ∧ sv_action v' = a' ∧ d = false ∧
      wld (sv_run v') = 0 ∧
      ∀ d2 v2, sarsa_body lcg two_state (1 / 2) 1 0 0 v' = Ok (d2, v2) →
        step two_state a' 0
          = (sv_state v2, (step two_state a' 0).1.1.2, d2, wld (sv_run v2)).
Proof.
  eexists _, _. split; [reflexivity|].
  apply (sarsa_step_on_policy lcg two_state (1 / 2) 1 0 0 sarsa_round
           0 0%Qc false 0); reflexivity.
Defined.

Lemma sarsa_terminal_step_bootstraps_witness :
  ∃ d v',
    sarsa_body lcg two_state (1 / 2) 1 0 0 sarsa_last_round = Ok (d, v') ∧
    ∃ a' r' boot old,
      d = true ∧
      egreedy_policy lcg 1 (tbl (sv_run sarsa_last_round)) 0 42
        = Ok (a', rnd (sv_run v')) ∧
      py_get (tbl (sv_run sarsa_last_round)) 1 = Ok r' ∧
      (rnd (sv_run v') = (draw lcg 42).2 ∨
       rnd (sv_run v') = (pick lcg (length r') (draw lcg 42).2).2) ∧
      table_get (tbl (sv_run sarsa_last_round)) 1 a' = Ok boot ∧
      table_get (tbl (sv_run sarsa_last_round)) 0 0 = Ok old ∧
      table_get (tbl (sv_run v')) 0 0
        = Ok (old + 1 / 2 * (1 + 1 * boot - old))%Qc ∧
      (old + 1 / 2 * (1 + 1 * boot - old)
       = old + 1 / 2 * (1 - old) + 1 / 2 * 1 * boot)%Qc.
Proof.
  eexists _, _. split; [reflexivity|].
  apply (sarsa_terminal_step_bootstraps lcg two_state (1 / 2) 1 0 0
           sarsa_last_round 1 1%Qc 1); reflexivity.
Defined.

(** In [sarsa_last_round] the terminal row's entry [1] enters the target:
    the updated value is [1/2 * (1 + 1 * 1)], not [1/2 * 1]. *)
Example sarsa_last_round_value :
  ∃ v', sarsa_body lcg two_state (1 / 2) 1 0 0 sarsa_last_round
          = Ok (true, v') ∧
        table_get (tbl (sv_run v')) 0 0 = Ok 1%Qc.
Proof.
  eexists. split; [reflexivity|].
  vm_compute. apply f_equal, Qc_is_canon. reflexivity.
Qed.

Lemma qlearning_step_off_policy_witness :
  ∃ d v',
    qlearning_body lcg two_state (1 / 2) 1 0 0 qlearning_round = Ok (d, v') ∧
    ∃ a reward r_next k m,
      egreedy_policy lcg 0 zeros2 0 42 = Ok (a, rnd (qv_run v')) ∧
      step two_state a 0 = (qv_state v', reward, d, wld (qv_run v')) ∧
      py_get zeros2 (qv_state v') = Ok r_next ∧
      first_max r_next k m ∧
      td_updated zeros2 (tbl (qv_run v')) 0 a (1 / 2) (reward + 1 * m)%Qc.
Proof.
  eexists _, _. split; [reflexivity|].
  apply (qlearning_step_off_policy lcg two_state (1 / 2) 1 0 0
           qlearning_round). reflexivity.
Defined.

Lemma double_step_coin_witness :
  ∃ d v',
    double_body lcg two_state (1 / 2) 1 0 0 double_round = Ok (d, v') ∧
    ∃ a g1 reward coin,
      egreedy_policy lcg 0 (table_add zeros2 zeros2) 0 42 = Ok (a, g1) ∧
      step two_state a 0 = (qv_state v', reward, d, wld (qv_run v')) ∧
      draw lcg g1 = (coin, rnd (qv_run v')) ∧
      (0 ≤ coin ∧ coin < 1)%Qc ∧
      ((coin < 1 / 2)%Qc →
         cross_updated zeros2 zeros2 (tbl (qv_run v')).1
           0 a (1 / 2) 1 reward (qv_state v') ∧
         (tbl (qv_run v')).2 = zeros2) ∧
      ((1 / 2 ≤ coin)%Qc →
         cross_updated zeros2 zeros2 (tbl (qv_run v')).2
           0 a (1 / 2) 1 reward (qv_state v') ∧
         (tbl (qv_run v')).1 = zeros2).
Proof.
  eexists _, _. split; [reflexivity|].
  apply (double_step_coin lcg two_state (1 / 2) 1 0 0 double_round).
  reflexivity.
Defined.

Lemma double_selects_on_sum_returns_average_witness :
  (∃ a g1 reward,
     egreedy_policy lcg 0 (table_add zeros2 zeros2) 0 42 = Ok (a, g1) ∧
     ∃ d (v' : q_vars lcg two_state (table * table)),
       step two_state a 0 = (qv_state v', reward, d, wld (qv_run v'))) ∧
  (∃ k x, first_max (zip_with Qcplus [Qc_of_Z 3; 0%Qc; Qc_of_Z 2]
                       [0%Qc; Qc_of_Z 3; Qc_of_Z 2]) k x ∧
     ∀ g, egreedy_policy lcg 0 (table_add lean_left lean_right) 0 g
            = Ok (Z.of_nat k, (draw lcg g).2)) ∧
  (∃ r r2,
     double_qlearning lcg two_state 1 (1 / 2) 1 0 1 0 42 = Ok r ∧
     double_tables lcg two_state 1 (1 / 2) 1 0 1 0 42 = Ok r2 ∧
     tbl r = table_halve (table_add (tbl r2).1 (tbl r2).2)).
Proof.
  destruct (double_selects_on_sum_returns_average lcg two_state)
    as (Hstep & Hzero & _ & Hret).
  split_and!.
  - destruct (Hstep (1 / 2)%Qc 1%Qc 0%Qc 0 double_round)
      with (d := true)
           (v' := QVars (R:=lcg) (E:=two_state) 1
                    (Run (R:=lcg) (E:=two_state) (coin_tables (draw lcg (draw lcg 42).2).1)
                       [(0 + 1)%Qc] 1 (draw lcg (draw lcg 42).2).2))
      as (a & g1 & reward & Hpol & Hst).
    + exact (scenario_double_body lcg 42).
    + exists a, g1, reward. split; [exact Hpol|]. eexists _, _. exact Hst.
  - apply (Hzero lean_left lean_right 0); [reflexivity..|discriminate].
  - destruct (scenario_double lcg 0 0 42) as (r & Hr & _).
    destruct (Hret _ _ _ _ _ _ _ _ Hr) as (r2 & Hr2 & _ & Htbl & _).
    by exists r, r2.
Defined.

(** * Further properties of the code *)

(** ** The initial table *)

Lemma np_zeros_Ok nS nA Q :
  np_zeros nS nA = Ok Q →
  0 ≤ nS ∧ 0 ≤ nA ∧ shaped (Z.to_nat nS) (Z.to_nat nA) Q ∧
  all_entries (λ x, x = 0%Qc) Q.
Proof.
  unfold np_zeros. case_decide as Hneg; [done|]. intros [= <-].
  split_and!; [lia|lia| |].
  - split; [by rewrite length_replicate|].
    apply Forall_replicate. by rewrite length_replicate.
  - apply Forall_replicate. by apply Forall_replicate.
Qed.

Lemma all_entries_table_get P (Q : table) s a x :
  all_entries P Q → table_get Q s a = Ok x → P x.
Proof.
  intros HQ (i & j & r & _ & Hr & _ & Hx)%table_get_Ok.
  eapply Forall_lookup_1; [|done]. by eapply (Forall_lookup_1 _ _ _ _ HQ).
Qed.



(** X2. A negative state or action count makes all three algorithms raise
    [ValueError], whatever the episode count is, zero included: the table
    is allocated before the episode loop is entered. *)
Theorem negative_count_raises (R : RandomSource) (E : Env) fuel
    alpha gamma epsilon n w g :
  nS E < 0 ∨ nA E < 0 →
  sarsa R E fuel alpha gamma epsilon n w g = Raise ValueError ∧
  qlearning R E fuel alpha gamma epsilon n w g = Raise ValueError ∧
  double_qlearning R E fuel alpha gamma epsilon n w g = Raise ValueError.
Proof.
  intros Hneg.
  assert (zero_value E = Raise ValueError) as Hz.
  { unfold zero_value, np_zeros. by rewrite decide_True. }
  unfold sarsa, qlearning, double_qlearning, double_tables.
  by rewrite Hz.
Qed.

Lemma negative_count_raises_witness :
  sarsa lcg hollow 3 (1 / 2) 1 0 0 () 42 = Raise ValueError ∧
  qlearning lcg hollow 3 (1 / 2) 1 0 0 () 42 = Raise ValueError ∧
  double_qlearning lcg hollow 3 (1 / 2) 1 0 0 () 42 = Raise ValueError.
Proof. apply (negative_count_raises lcg hollow). simpl. lia. Defined.

(** ** More on the policy *)

Section PolicyMore.

Context (R : RandomSource).

(** X3. Whatever [epsilon] is, an action that [egreedy_policy] returns is a
    column index of the row of [s]: subscripting that row with it cannot
    fail. *)
Theorem egreedy_policy_in_range s (Q : table) epsilon g a g' :
  egreedy_policy R s Q epsilon g = Ok (a, g') →
  ∃ r x, py_get Q s = Ok r ∧ 0 ≤ a < Z.of_nat (length r) ∧ py_get r a = Ok x.
Proof.
  intros Hpol. apply egreedy_policy_Ok in Hpol as (r & Hr & Ha & _).
  destruct (py_get_in_bounds r a) as [x Hx]; [unfold in_bounds; lia|].
  by exists r, x.
Qed.

(** X4. With [epsilon >= 1] every call explores: the action is the uniform pick
    among the row's columns that follows the first draw, so two tables whose
    rows have the same number of columns get the same action, whatever their
    entries. *)
Theorem egreedy_policy_explores s1 s2 (Q1 Q2 : table) epsilon g r1 r2 :
  (1 ≤ epsilon)%Qc →
  py_get Q1 s1 = Ok r1 → py_get Q2 s2 = Ok r2 →
  r1 ≠ [] → length r1 = length r2 →
  egreedy_policy R s1 Q1 epsilon g
    = Ok (Z.of_nat (pick R (length r1) (draw R g).2).1,
          (pick R (length r1) (draw R g).2).2) ∧
  egreedy_policy R s2 Q2 epsilon g = egreedy_policy R s1 Q1 epsilon g.
Proof.
  intros Heps H1 H2 Hne Hlen.
  assert (∀ s (Q : table) r, py_get Q s = Ok r → length r = length r1 →
    egreedy_policy R s Q epsilon g
      = Ok (Z.of_nat (pick R (length r1) (draw R g).2).1,
            (pick R (length r1) (draw R g).2).2)) as Hrun.
  { intros s Q r Hr Hl. unfold egreedy_policy.
    pose proof (draw_unit R g) as [_ Hlt].
    destruct (draw R g) as [random g1]; simpl in *.
    rewrite decide_True by by eapply Qclt_le_trans.
    rewrite Hr; simpl. rewrite Hl.
    rewrite decide_False by by destruct r1.
    by destruct (pick R (length r1) g1). }
  split; [by eapply Hrun|]. rewrite (Hrun s1 Q1 r1), (Hrun s2 Q2 r2); done.
Qed.

(** X5. On a state whose row has no column, both branches fail with
    [ValueError]: [np.random.choice] and [np.argmax] both refuse an empty
    array. *)
Theorem egreedy_policy_no_action s (Q : table) epsilon g :
  py_get Q s = Ok [] → egreedy_policy R s Q epsilon g = Raise ValueError.
Proof.
  intros Hr. unfold egreedy_policy. destruct (draw R g) as [random g1].
  rewrite Hr. by case_decide.
Qed.

End PolicyMore.

Lemma egreedy_policy_in_range_witness :
  ∃ a g',
    egreedy_policy lcg 0 tie_table (1 / 2) 42 = Ok (a, g') ∧
    ∃ r x, py_get tie_table 0 = Ok r ∧ 0 ≤ a < Z.of_nat (length r) ∧
           py_get r a = Ok x.
Proof.
  eexists _, _. split; [reflexivity|].
  eapply (egreedy_policy_in_range lcg 0 tie_table (1 / 2) 42). reflexivity.
Defined.

Lemma egreedy_policy_explores_witness :
  egreedy_policy lcg 0 tie_table 1 42
    = Ok (Z.of_nat (pick lcg 3 (draw lcg 42).2).1,
          (pick lcg 3 (draw lcg 42).2).2) ∧
  egreedy_policy lcg 1 tie_table 1 42 = egreedy_policy lcg 0 tie_table 1 42.
Proof.
  apply (egreedy_policy_explores lcg 0 1 tie_table tie_table 1 42
           [1%Qc; Qc_of_Z 3; Qc_of_Z 3] [0%Qc; 0%Qc; 0%Qc]);
    [by vm_compute|reflexivity|reflexivity|discriminate|reflexivity].
Defined.

Lemma egreedy_policy_no_action_witness :
  egreedy_policy lcg 0 [[]; []] (1 / 2) 42 = Raise ValueError.
Proof. apply (egreedy_policy_no_action lcg 0 [[]; []]). reflexivity. Defined.

(** ** Properties of the table that every update keeps *)

Lemma table_set_all P (Q : table) i j x :
  all_entries P Q → P x → all_entries P (table_set Q i j x).
Proof.
  intros HQ Hx. unfold table_set. apply Forall_alter; [done|].
  intros r _ Hr. by apply Forall_insert.
Qed.

Lemma cell_at_all P (Q : table) s a i j x :
  all_entries P Q → cell_at Q s a i j x → P x.
Proof.
  intros HQ (r & _ & Hr & _ & Hx).
  eapply Forall_lookup_1; [|done]. by eapply (Forall_lookup_1 _ _ _ _ HQ).
Qed.

Lemma td_assign_all P (Qw Qr : table) s a alpha gamma reward s' a' Q' :
  (∀ old boot, P old → P boot →
     P (old + alpha * (reward + gamma * boot - old))%Qc) →
  all_entries P Qw → all_entries P Qr →
  td_assign Qw Qr s a alpha gamma reward s' a' = Ok Q' →
  all_entries P Q'.
Proof.
  intros Hupd Hw Hr (i & j & old & boot & Hc & Hboot & ->)%td_assign_Ok.
  apply table_set_all; [done|]. apply Hupd.
  - exact (cell_at_all P _ _ _ _ _ _ Hw Hc).
  - exact (all_entries_table_get P _ _ _ _ Hr Hboot).
Qed.

Lemma table_halve_shaped m n Q : shaped m n Q → shaped m n (table_halve Q).
Proof.
  intros [Hm Hn]. unfold table_halve. split; [by rewrite length_map|].
  apply Forall_lookup. intros i r. rewrite list_lookup_fmap.
  destruct (Q !! i) as [r0|] eqn:Hr0; [|done]. simpl. intros [= <-].
  rewrite length_map. by eapply (Forall_lookup_1 _ _ _ _ Hn).
Qed.

Lemma table_mean_all P (Q1 Q2 : table) :
  (∀ x y, P x → P y → P ((x + y) / 2)%Qc) →
  all_entries P Q1 → all_entries P Q2 →
  all_entries P (table_halve (table_add Q1 Q2)).
Proof.
  intros Hmean H1 H2. apply Forall_lookup. intros i r.
  unfold table_halve, table_add. rewrite list_lookup_fmap, lookup_zip_with.
  destruct (Q1 !! i) as [r1|] eqn:Hr1; [|done].
  destruct (Q2 !! i) as [r2|] eqn:Hr2; [|done]. simpl. intros [= <-].
  pose proof (Forall_lookup_1 _ _ _ _ H1 Hr1) as Hp1.
  pose proof (Forall_lookup_1 _ _ _ _ H2 Hr2) as Hp2.
  apply Forall_lookup. intros j x.
  rewrite list_lookup_fmap, lookup_zip_with.
  destruct (r1 !! j) as [x1|] eqn:Hx1; [|done].
  destruct (r2 !! j) as [x2|] eqn:Hx2; [|done]. simpl. intros [= <-].
  apply Hmean.
  - exact (Forall_lookup_1 _ _ _ _ Hp1 Hx1).
  - exact (Forall_lookup_1 _ _ _ _ Hp2 Hx2).
Qed.

Section TableInvariant.

Context (R : RandomSource) (E : Env) (Inv : table → Prop) (alpha gamma : Qc).

(** [Inv] survives the update statement for every reward the environment
    can hand out. *)
Hypothesis Inv_update :
  ∀ (Qw Qr : table) s a aw ww s' a' Q',
    Inv Qw → Inv Qr →
    td_assign Qw Qr s a alpha gamma (step E aw ww).1.1.2 s' a' = Ok Q' →
    Inv Q'.

Lemma sarsa_keeps fuel epsilon n w g r :
  sarsa R E fuel alpha gamma epsilon n w g = Ok r →
  ∃ Q0, zero_value E = Ok Q0 ∧ (Inv Q0 → Inv (tbl r)).
Proof.
  unfold sarsa. destruct (zero_value E) as [Q0| |]; simpl; [|done..].
  intros Hr. exists Q0. split; [done|]. intros H0.
  apply (for_each_inv _ (λ _ r, Inv (tbl r))) with (k := O) in Hr; [done| |done].
  clear Hr H0. intros t _ r0 r1 Hinv. unfold sarsa_episode.
  destruct (reset E (wld r0)) as [state w0].
  destruct (egreedy_policy _ _ _ _ _) as [[a g0]| |]; simpl; [|done..].
  destruct (while_true _ _ _) as [v| |] eqn:Hloop; simpl; [|done..].
  intros [= <-].
  apply (while_true_inv _ (λ v, Inv (tbl (sv_run v)))) in Hloop; [done| |done].
  intros v0 d v1 Hv0 Hbody. apply sarsa_body_Ok in Hbody
    as (s' & reward & w' & a' & g' & Q' & rewards & Hstep & _ & HQ & _ & ->).
  simpl. eapply Inv_update; [exact Hv0|exact Hv0|].
  by rewrite Hstep.
Qed.

Lemma qlearning_keeps fuel epsilon n w g r :
  qlearning R E fuel alpha gamma epsilon n w g = Ok r →
  ∃ Q0, zero_value E = Ok Q0 ∧ (Inv Q0 → Inv (tbl r)).
Proof.
  unfold qlearning. destruct (zero_value E) as [Q0| |]; simpl; [|done..].
  intros Hr. exists Q0. split; [done|]. intros H0.
  apply (for_each_inv _ (λ _ r, Inv (tbl r))) with (k := O) in Hr; [done| |done].
  clear Hr H0. intros t _ r0 r1 Hinv. unfold qlearning_episode.
  destruct (reset E (wld r0)) as [state w0].
  destruct (while_true _ _ _) as [v| |] eqn:Hloop; simpl; [|done..].
  intros [= <-].
  apply (while_true_inv _ (λ v, Inv (tbl (qv_run v)))) in Hloop; [done| |done].
  intros v0 d v1 Hv0 Hbody. apply qlearning_body_Ok in Hbody
    as (a & g' & s' & reward & w' & r_next & na & Q' & rewards
        & _ & Hstep & _ & _ & HQ & _ & ->).
  simpl. eapply Inv_update; [exact Hv0|exact Hv0|].
  by rewrite Hstep.
Qed.

Lemma double_tables_keeps fuel epsilon n w g r :
  double_tables R E fuel alpha gamma epsilon n w g = Ok r →
  ∃ Q0, zero_value E = Ok Q0 ∧ (Inv Q0 → Inv (tbl r).1 ∧ Inv (tbl r).2).
Proof.
  unfold double_tables. destruct (zero_value E) as [Q0| |]; simpl; [|done..].
  intros Hr. exists Q0. split; [done|]. intros H0.
  apply (for_each_inv _ (λ _ r, Inv (tbl r).1 ∧ Inv (tbl r).2)) with (k := O)
    in Hr; [done| |done].
  clear Hr H0. intros t _ r0 r1 Hinv. unfold double_episode.
  destruct (reset E (wld r0)) as [state w0].
  destruct (while_true _ _ _) as [v| |] eqn:Hloop; simpl; [|done..].
  intros [= <-].
  apply (while_true_inv _ (λ v, Inv (tbl (qv_run v)).1 ∧ Inv (tbl (qv_run v)).2))
    in Hloop; [done| |done].
  intros v0 d v1 [H1 H2] Hbody. apply double_body_Ok in Hbody
    as (a & g1 & s' & reward & w' & coin & g2 & Q1' & Q2' & rewards
        & _ & Hstep & _ & Hupd & _ & ->).
  simpl. case_decide.
  - destruct Hupd as (r_next & na & _ & _ & HQ & ->). split; [|done].
    eapply Inv_update; [exact H1|exact H2|]. by rewrite Hstep.
  - destruct Hupd as (r_next & na & _ & _ & HQ & ->). split; [done|].
    eapply Inv_update; [exact H2|exact H1|]. by rewrite Hstep.
Qed.

End TableInvariant.

Lemma zero_value_all P (E : Env) Q0 :
  P 0%Qc → zero_value E = Ok Q0 → all_entries P Q0.
Proof.
  intros HP (_ & _ & _ & Hall)%np_zeros_Ok.
  eapply Forall_impl; [|exact Hall]. intros r Hr.
  eapply Forall_impl; [|exact Hr]. by intros x ->.
Qed.

(** A property of single entries that holds of 0, survives the update for
    every reward of the environment and survives averaging holds of every
    entry of every returned table. *)
Lemma learned_entries (R : RandomSource) (E : Env) (P : Qc → Prop)
    alpha gamma :
  P 0%Qc →
  (∀ aw ww old boot, P old → P boot →
     P (old + alpha * ((step E aw ww).1.1.2 + gamma * boot - old))%Qc) →
  (∀ x y, P x → P y → P ((x + y) / 2)%Qc) →
  ∀ fuel epsilon n w g r,
    sarsa R E fuel alpha gamma epsilon n w g = Ok r ∨
    qlearning R E fuel alpha gamma epsilon n w g = Ok r ∨
    double_qlearning R E fuel alpha gamma epsilon n w g = Ok r →
    all_entries P (tbl r).
Proof.
  intros H0 Hupd Hmean fuel epsilon n w g r.
  assert (∀ (Qw Qr : table) s a aw ww s' a' Q',
    all_entries P Qw → all_entries P Qr →
    td_assign Qw Qr s a alpha gamma (step E aw ww).1.1.2 s' a' = Ok Q' →
    all_entries P Q') as Hinv.
  { intros Qw Qr s a aw ww s' a' Q' Hw Hr HQ.
    eapply (td_assign_all P); [|exact Hw|exact Hr|exact HQ]. apply Hupd. }
  intros [Hr|[Hr|Hr]].
  - destruct (sarsa_keeps R E _ alpha gamma Hinv _ _ _ _ _ _ Hr)
      as (Q0 & HQ0 & Hkeep). by eapply Hkeep, zero_value_all.
  - destruct (qlearning_keeps R E _ alpha gamma Hinv _ _ _ _ _ _ Hr)
      as (Q0 & HQ0 & Hkeep). by eapply Hkeep, zero_value_all.
  - unfold double_qlearning in Hr.
    destruct (double_tables _ _ _ _ _ _ _ _ _) as [r2| |] eqn:Hr2;
      simpl in Hr; [|done..].
    destruct (double_tables_keeps R E _ alpha gamma Hinv _ _ _ _ _ _ Hr2)
      as (Q0 & HQ0 & Hkeep).
    destruct (tbl r2) as [Q1 Q2]. injection Hr as <-. simpl in *.
    destruct Hkeep as [H1 H2]; [by eapply zero_value_all|].
    by apply table_mean_all.
Qed.

(** ** What the returned table is guaranteed to look like *)

(** X6. Whenever one of the three algorithms returns, its table has exactly the
    environment's [nS] rows and [nA] columns: no update adds or removes a
    cell. *)
Theorem returned_table_shape (R : RandomSource) (E : Env) fuel
    alpha gamma epsilon n w g r :
  sarsa R E fuel alpha gamma epsilon n w g = Ok r ∨
  qlearning R E fuel alpha gamma epsilon n w g = Ok r ∨
  double_qlearning R E fuel alpha gamma epsilon n w g = Ok r →
  shaped (Z.to_nat (nS E)) (Z.to_nat (nA E)) (tbl r).
Proof.
  set (Inv := shaped (Z.to_nat (nS E)) (Z.to_nat (nA E))).
  assert (∀ (Qw Qr : table) s a aw ww s' a' Q',
    Inv Qw → Inv Qr →
    td_assign Qw Qr s a alpha gamma (step E aw ww).1.1.2 s' a' = Ok Q' →
    Inv Q') as Hinv.
  { intros Qw Qr s a aw ww s' a' Q' Hw _ HQ. by eapply td_assign_shaped. }
  assert (∀ Q0, zero_value E = Ok Q0 → Inv Q0) as Hzero.
  { by intros Q0 (_ & _ & Hsh & _)%np_zeros_Ok. }
  intros [Hr|[Hr|Hr]].
  - destruct (sarsa_keeps R E _ alpha gamma Hinv _ _ _ _ _ _ Hr)
      as (Q0 & HQ0 & Hkeep). auto.
  - destruct (qlearning_keeps R E _ alpha gamma Hinv _ _ _ _ _ _ Hr)
      as (Q0 & HQ0 & Hkeep). auto.
  - unfold double_qlearning in Hr.
    destruct (double_tables _ _ _ _ _ _ _ _ _) as [r2| |] eqn:Hr2;
      simpl in Hr; [|done..].
    destruct (double_tables_keeps R E _ alpha gamma Hinv _ _ _ _ _ _ Hr2)
      as (Q0 & HQ0 & Hkeep).
    destruct (tbl r2) as [Q1 Q2]. injection Hr as <-. simpl in *.
    destruct Hkeep as [H1 H2]; [auto|].
    by apply table_halve_shaped, table_add_shaped.
Qed.

Lemma returned_table_shape_witness :
  ∃ r, double_qlearning lcg chain 2 (1 / 2) 1 (1 / 2) 3 0 42 = Ok r ∧
       shaped 3 2 (tbl r).
Proof.
  destruct (double_qlearning_total lcg chain 2 chain_valid 2 (1 / 2) 1 (1 / 2)
              3 0 42) as (r & Hr & _); [lia|].
  exists r. split; [exact Hr|].
  apply (returned_table_shape lcg chain 2 (1 / 2) 1 (1 / 2) 3 0 42 r).
  right; right. exact Hr.
Defined.

(** ** Values that cannot be learned *)

Lemma Qc_mult_nonneg (a b : Qc) : (0 ≤ a → 0 ≤ b → 0 ≤ a * b)%Qc.
Proof.
  intros Ha Hb. replace 0%Qc with (0 * b)%Qc by ring.
  by apply Qcmult_le_compat_r.
Qed.

Lemma Qc_plus_nonneg (a b : Qc) : (0 ≤ a → 0 ≤ b → 0 ≤ a + b)%Qc.
Proof.
  intros Ha Hb. replace 0%Qc with (0 + 0)%Qc by ring.
  by apply Qcplus_le_compat.
Qed.

Lemma Qc_sub_nonneg (a b : Qc) : (a ≤ b → 0 ≤ b - a)%Qc.
Proof. unfold Qcminus. apply Qcle_minus_iff. Qed.


Lemma Qc_half_nonneg : (0 ≤ / 2)%Qc.
Proof. by vm_compute. Qed.

(** X7. If the environment only ever pays reward 0, every entry of every
    returned table is still 0, whatever [alpha], [gamma], [epsilon] and the
    episode count are. *)
Theorem no_reward_no_value (R : RandomSource) (E : Env) fuel
    alpha gamma epsilon n w g r :
  (∀ a w', (step E a w').1.1.2 = 0%Qc) →
  sarsa R E fuel alpha gamma epsilon n w g = Ok r ∨
  qlearning R E fuel alpha gamma epsilon n w g = Ok r ∨
  double_qlearning R E fuel alpha gamma epsilon n w g = Ok r →
  all_entries (λ x, x = 0%Qc) (tbl r).
Proof.
  intros Hrew.
  apply (learned_entries R E (λ x, x = 0%Qc) alpha gamma); [done| |].
  - intros aw ww old boot -> ->. rewrite Hrew. ring.
  - intros x y -> ->. apply Qc_is_canon. reflexivity.
Qed.

(** X8. With learning rate [alpha = 0] nothing is learned: every entry of every
    returned table is 0, whatever the environment pays. *)
Theorem zero_alpha_no_value (R : RandomSource) (E : Env) fuel
    gamma epsilon n w g r :
  sarsa R E fuel 0 gamma epsilon n w g = Ok r ∨
  qlearning R E fuel 0 gamma epsilon n w g = Ok r ∨
  double_qlearning R E fuel 0 gamma epsilon n w g = Ok r →
  all_entries (λ x, x = 0%Qc) (tbl r).
Proof.
  apply (learned_entries R E (λ x, x = 0%Qc) 0 gamma); [done| |].
  - intros aw ww old boot -> _. ring.
  - intros x y -> ->. apply Qc_is_canon. reflexivity.
Qed.

(** X9. With [0 <= alpha <= 1], [gamma >= 0] and rewards that are never
    negative, no entry of a returned table is negative. *)
Theorem values_never_negative (R : RandomSource) (E : Env) fuel
    alpha gamma epsilon n w g r :
  (0 ≤ alpha)%Qc → (alpha ≤ 1)%Qc → (0 ≤ gamma)%Qc →
  (∀ a w', (0 ≤ (step E a w').1.1.2)%Qc) →
  sarsa R E fuel alpha gamma epsilon n w g = Ok r ∨
  qlearning R E fuel alpha gamma epsilon n w g = Ok r ∨
  double_qlearning R E fuel alpha gamma epsilon n w g = Ok r →
  all_entries (λ x, (0 ≤ x)%Qc) (tbl r).
Proof.
  intros Ha0 Ha1 Hg Hrew.
  apply (learned_entries R E (λ x, (0 ≤ x)%Qc) alpha gamma).
  - apply Qcle_refl.
  - intros aw ww old boot Hold Hboot.
    replace (old + alpha * ((step E aw ww).1.1.2 + gamma * boot - old))%Qc
      with ((1 - alpha) * old
            + alpha * ((step E aw ww).1.1.2 + gamma * boot))%Qc by ring.
    apply Qc_plus_nonneg; apply Qc_mult_nonneg; try done.
    + by apply Qc_sub_nonneg.
    + apply Qc_plus_nonneg; [done|]. by apply Qc_mult_nonneg.
  - intros x y Hx Hy. unfold Qcdiv.
    apply Qc_mult_nonneg; [by apply Qc_plus_nonneg|apply Qc_half_nonneg].
Qed.


Lemma silent_valid : valid_env silent 1.
Proof.
  split.
  - done.
  - done.
  - intros w. simpl. lia.
  - intros a w _. simpl. lia.
  - intros w a _. by left.
Qed.

Lemma chain_reward_range a w :
  (0 ≤ (step chain a w).1.1.2 ∧ (step chain a w).1.1.2 ≤ 1)%Qc.
Proof. simpl. case_decide; by vm_compute. Qed.

Lemma no_reward_no_value_witness :
  ∃ r, qlearning lcg silent 1 (1 / 2) 1 (1 / 2) 3 () 42 = Ok r ∧
       all_entries (λ x, x = 0%Qc) (tbl r).
Proof.
  destruct (qlearning_total lcg silent 1 silent_valid 1 (1 / 2) 1 (1 / 2)
              3 () 42) as (r & Hr & _); [lia|].
  exists r. split; [exact Hr|].
  apply (no_reward_no_value lcg silent 1 (1 / 2) 1 (1 / 2) 3 () 42 r);
    [reflexivity|]. right; left. exact Hr.
Defined.

Lemma zero_alpha_no_value_witness :
  ∃ r, sarsa lcg chain 2 0 1 (1 / 2) 3 0 42 = Ok r ∧
       all_entries (λ x, x = 0%Qc) (tbl r).
Proof.
  destruct (sarsa_total lcg chain 2 chain_valid 2 0 1 (1 / 2) 3 0 42)
    as (r & Hr & _); [lia|].
  exists r. split; [exact Hr|].
  apply (zero_alpha_no_value lcg chain 2 1 (1 / 2) 3 0 42 r).
  left. exact Hr.
Defined.

Lemma values_never_negative_witness :
  ∃ r, double_qlearning lcg chain 2 (1 / 2) 1 (1 / 2) 3 0 42 = Ok r ∧
       all_entries (λ x, (0 ≤ x)%Qc) (tbl r).
Proof.
  destruct (double_qlearning_total lcg chain 2 chain_valid 2 (1 / 2) 1 (1 / 2)
              3 0 42) as (r & Hr & _); [lia|].
  exists r. split; [exact Hr|].
  apply (values_never_negative lcg chain 2 (1 / 2) 1 (1 / 2) 3 0 42 r);
    [by vm_compute..| |].
  - intros a w'. apply chain_reward_range.
  - right; right. exact Hr.
Defined.


(** ** Training one episode longer *)

Lemma for_each_app {St} (body : Z → St → result St) l1 l2 s :
  for_each (l1 ++ l2) body s = (s' ← for_each l1 body s ; for_each l2 body s').
Proof.
  revert s. induction l1 as [|t l1 IH]; intros s; simpl; [done|].
  destruct (body t s) as [s1| |]; simpl; [apply IH|done..].
Qed.

Lemma py_range_succ n : 0 ≤ n → py_range (n + 1) = py_range n ++ [n].
Proof.
  intros Hn. unfold py_range. rewrite seqZ_app by lia. f_equal.
Qed.

Lemma for_each_one_more {St} (body : Z → St → result St) n s :
  0 ≤ n →
  for_each (py_range (n + 1)) body s
    = (s' ← for_each (py_range n) body s ; body n s').
Proof.
  intros Hn. rewrite py_range_succ, for_each_app by done.
  destruct (for_each (py_range n) body s) as [s1| |]; simpl; [|done..].
  by destruct (body n s1).
Qed.

(** X11. Training for [n + 1] episodes is training for [n] episodes followed by
    episode number [n] on the variables that run left behind: the table, the
    trace, the environment and the random source carry over unchanged. For
    double Q-learning this holds of the two tables before the final
    averaging. *)
Theorem one_more_episode (R : RandomSource) (E : Env) fuel
    alpha gamma epsilon n w g :
  0 ≤ n →
  sarsa R E fuel alpha gamma epsilon (n + 1) w g
    = (r ← sarsa R E fuel alpha gamma epsilon n w g ;
       sarsa_episode R E fuel alpha gamma epsilon n r) ∧
  qlearning R E fuel alpha gamma epsilon (n + 1) w g
    = (r ← qlearning R E fuel alpha gamma epsilon n w g ;
       qlearning_episode R E fuel alpha gamma epsilon n r) ∧
  double_tables R E fuel alpha gamma epsilon (n + 1) w g
    = (r ← double_tables R E fuel alpha gamma epsilon n w g ;
       double_episode R E fuel alpha gamma epsilon n r).
Proof.
  intros Hn. unfold sarsa, qlearning, double_tables.
  destruct (zero_value E) as [Q0| |]; simpl; [|done..].
  by rewrite !for_each_one_more.
Qed.

Lemma one_more_episode_witness :
  sarsa lcg chain 2 (1 / 2) 1 (1 / 2) (2 + 1) 0 42
    = (r ← sarsa lcg chain 2 (1 / 2) 1 (1 / 2) 2 0 42 ;
       sarsa_episode lcg chain 2 (1 / 2) 1 (1 / 2) 2 r) ∧
  qlearning lcg chain 2 (1 / 2) 1 (1 / 2) (2 + 1) 0 42
    = (r ← qlearning lcg chain 2 (1 / 2) 1 (1 / 2) 2 0 42 ;
       qlearning_episode lcg chain 2 (1 / 2) 1 (1 / 2) 2 r) ∧
  double_tables lcg chain 2 (1 / 2) 1 (1 / 2) (2 + 1) 0 42
    = (r ← double_tables lcg chain 2 (1 / 2) 1 (1 / 2) 2 0 42 ;
       double_episode lcg chain 2 (1 / 2) 1 (1 / 2) 2 r).
Proof. apply (one_more_episode lcg chain). lia. Defined.

Lemma one_more_tables (R : RandomSource) (E : Env) fuel
    alpha gamma epsilon n w g :
  0 ≤ n →
  double_tables R E fuel alpha gamma epsilon (n + 1) w g
    = (r ← double_tables R E fuel alpha gamma epsilon n w g ;
       double_episode R E fuel alpha gamma epsilon n r).
Proof.
  intros Hn. unfold double_tables.
  destruct (zero_value E) as [Q0| |]; simpl; [|done..].
  by rewrite !for_each_one_more.
Qed.

Lemma add_reward_last (base : list Qc) x t reward l' :
  0 ≤ t → length base = Z.to_nat t →
  add_reward (base ++ [x]) t reward = Ok l' →
  l' = base ++ [(x + reward)%Qc].
Proof.
  intros Ht Hlen. unfold add_reward, py_get, py_set.
  rewrite norm_index_nonneg by (rewrite length_app; simpl; lia).
  rewrite <-Hlen, lookup_app_r, Nat.sub_diag by done. simpl.
  intros [= <-]. by rewrite insert_app_r_alt, Nat.sub_diag.
Qed.

Section TraceGrowth.

Context (R : RandomSource) (E : Env).

Lemma sarsa_episode_appends fuel alpha gamma epsilon t (r r' : run R E table) :
  0 ≤ t → length (sum_rewards r) = Z.to_nat t →
  sarsa_episode R E fuel alpha gamma epsilon t r = Ok r' →
  ∃ x, sum_rewards r' = sum_rewards r ++ [x].
Proof.
  intros Ht Hlen. unfold sarsa_episode.
  destruct (reset E (wld r)) as [state w].
  destruct (egreedy_policy _ _ _ _ _) as [[a g]| |]; simpl; [|done..].
  destruct (while_true _ _ _) as [v| |] eqn:Hloop; simpl; [|done..].
  intros [= <-].
  apply (while_true_inv _
           (λ v, ∃ x, sum_rewards (sv_run v) = sum_rewards r ++ [x]))
    in Hloop; [done| |by eexists].
  intros v0 d v1 [x Hx] Hbody. apply sarsa_body_Ok in Hbody
    as (? & reward & ? & ? & ? & ? & rewards & _ & _ & _ & Hrew & ->).
  simpl. rewrite Hx in Hrew. apply add_reward_last in Hrew; [|done..].
  by eexists.
Qed.

Lemma qlearning_episode_appends fuel alpha gamma epsilon t
    (r r' : run R E table) :
  0 ≤ t → length (sum_rewards r) = Z.to_nat t →
  qlearning_episode R E fuel alpha gamma epsilon t r = Ok r' →
  ∃ x, sum_rewards r' = sum_rewards r ++ [x].
Proof.
  intros Ht Hlen. unfold qlearning_episode.
  destruct (reset E (wld r)) as [state w].
  destruct (while_true _ _ _) as [v| |] eqn:Hloop; simpl; [|done..].
  intros [= <-].
  apply (while_true_inv _
           (λ v, ∃ x, sum_rewards (qv_run v) = sum_rewards r ++ [x]))
    in Hloop; [done| |by eexists].
  intros v0 d v1 [x Hx] Hbody. apply qlearning_body_Ok in Hbody
    as (? & ? & ? & reward & ? & ? & ? & ? & rewards
        & _ & _ & _ & _ & _ & Hrew & ->).
  simpl. rewrite Hx in Hrew. apply add_reward_last in Hrew; [|done..].
  by eexists.
Qed.

Lemma double_episode_appends fuel alpha gamma epsilon t
    (r r' : run R E (table * table)) :
  0 ≤ t → length (sum_rewards r) = Z.to_nat t →
  double_episode R E fuel alpha gamma epsilon t r = Ok r' →
  ∃ x, sum_rewards r' = sum_rewards r ++ [x].
Proof.
  intros Ht Hlen. unfold double_episode.
  destruct (reset E (wld r)) as [state w].
  destruct (while_true _ _ _) as [v| |] eqn:Hloop; simpl; [|done..].
  intros [= <-].
  apply (while_true_inv _
           (λ v, ∃ x, sum_rewards (qv_run v) = sum_rewards r ++ [x]))
    in Hloop; [done| |by eexists].
  intros v0 d v1 [x Hx] Hbody. apply double_body_Ok in Hbody
    as (? & ? & ? & reward & ? & ? & ? & ? & ? & rewards
        & _ & _ & _ & _ & Hrew & ->).
  simpl. rewrite Hx in Hrew. apply add_reward_last in Hrew; [|done..].
  by eexists.
Qed.

Lemma double_tables_trace fuel alpha gamma epsilon n w g r :
  double_tables R E fuel alpha gamma epsilon n w g = Ok r →
  length (sum_rewards r) = Z.to_nat n.
Proof.
  unfold double_tables. destruct (zero_value E) as [Q0| |]; simpl; [|done..].
  intros Hr. rewrite <-(py_range_length n).
  apply (for_each_inv _ (λ k r, length (sum_rewards r) = k)) with (k := O)
    in Hr; [done| |done].
  intros i k s s' <- Hs. by eapply double_episode_trace.
Qed.

End TraceGrowth.

(** X12. The reward totals of finished episodes are never rewritten: when a run
    of [n + 1] episodes returns, the run of [n] episodes returns as well, and
    the longer trace is the shorter one followed by one more entry. *)
Theorem trace_extends (R : RandomSource) (E : Env) fuel
    alpha gamma epsilon n w g :
  0 ≤ n →
  (∀ r', sarsa R E fuel alpha gamma epsilon (n + 1) w g = Ok r' →
     ∃ r x, sarsa R E fuel alpha gamma epsilon n w g = Ok r ∧
            sum_rewards r' = sum_rewards r ++ [x]) ∧
  (∀ r', qlearning R E fuel alpha gamma epsilon (n + 1) w g = Ok r' →
     ∃ r x, qlearning R E fuel alpha gamma epsilon n w g = Ok r ∧
            sum_rewards r' = sum_rewards r ++ [x]) ∧
  (∀ r', double_qlearning R E fuel alpha gamma epsilon (n + 1) w g = Ok r' →
     ∃ r x, double_qlearning R E fuel alpha gamma epsilon n w g = Ok r ∧
            sum_rewards r' = sum_rewards r ++ [x]).
Proof.
  intros Hn. split_and!; intros r'.
  - unfold sarsa. destruct (zero_value E) as [Q0| |] eqn:HQ0; simpl; [|done..].
    rewrite for_each_one_more by done.
    destruct (for_each (py_range n) _ _) as [r| |] eqn:Hr; simpl; [|done..].
    intros Hr'.
    assert (length (sum_rewards r) = Z.to_nat n) as Hlen.
    { apply (sarsa_trace R E fuel alpha gamma epsilon n w g).
      unfold sarsa. by rewrite HQ0. }
    destruct (sarsa_episode_appends R E _ _ _ _ _ _ _ Hn Hlen Hr') as [x Hx].
    by exists r, x.
  - unfold qlearning.
    destruct (zero_value E) as [Q0| |] eqn:HQ0; simpl; [|done..].
    rewrite for_each_one_more by done.
    destruct (for_each (py_range n) _ _) as [r| |] eqn:Hr; simpl; [|done..].
    intros Hr'.
    assert (length (sum_rewards r) = Z.to_nat n) as Hlen.
    { apply (qlearning_trace R E fuel alpha gamma epsilon n w g).
      unfold qlearning. by rewrite HQ0. }
    destruct (qlearning_episode_appends R E _ _ _ _ _ _ _ Hn Hlen Hr')
      as [x Hx].
    by exists r, x.
  - unfold double_qlearning.
    rewrite (one_more_tables R E fuel alpha gamma epsilon n w g Hn).
    destruct (double_tables R E fuel alpha gamma epsilon n w g)
      as [r| |] eqn:Hr; simpl; [|done..].
    destruct (double_episode _ _ _ _ _ _ _ r) as [r2| |] eqn:Hr2;
      simpl; [|done..].
    pose proof (double_tables_trace R E _ _ _ _ _ _ _ _ Hr) as Hlen.
    destruct (double_episode_appends R E _ _ _ _ _ _ _ Hn Hlen Hr2) as [x Hx].
    destruct (tbl r2) as [Q1' Q2'], (tbl r) as [Q1 Q2]. intros [= <-].
    eexists _, x. split; [done|]. done.
Qed.

Lemma trace_extends_witness :
  ∃ r' r x,
    sarsa lcg chain 2 (1 / 2) 1 (1 / 2) (2 + 1) 0 42 = Ok r' ∧
    sarsa lcg chain 2 (1 / 2) 1 (1 / 2) 2 0 42 = Ok r ∧
    sum_rewards r' = sum_rewards r ++ [x].
Proof.
  destruct (sarsa_total lcg chain 2 chain_valid 2 (1 / 2) 1 (1 / 2) (2 + 1)
              0 42) as (r' & Hr' & _); [lia|].
  destruct (trace_extends lcg chain 2 (1 / 2) 1 (1 / 2) 2 0 42)
    as (Hs & _ & _); [lia|].
  destruct (Hs r' Hr') as (r & x & Hr & Hx).
  exists r', r, x. split; [exact Hr'|]. split; [exact Hr|exact Hx].
Defined.

(** ** Environments that break the contract *)

Lemma while_true_never {St} (body : St → result (bool * St)) :
  (∀ s s', body s ≠ Ok (true, s')) →
  ∀ fuel s s', while_true fuel body s ≠ Ok s'.
Proof.
  intros Hbody. induction fuel as [|fuel IH]; intros s s'; simpl; [done|].
  destruct (body s) as [[d s1]| |] eqn:Hs; simpl; [|done..].
  destruct d; [|apply IH]. by destruct (Hbody s s1).
Qed.

Lemma py_range_pos n : 0 < n → py_range n = 0 :: seqZ 1 (n - 1).
Proof. intros Hn. unfold py_range. by rewrite seqZ_cons. Qed.

(** X13. If the environment never reports the end of an episode, none of the
    three algorithms ever returns a table for a positive episode count, not
    even with an unbounded number of steps: the only exit of the episode loop
    is [done]. *)
Theorem never_done_never_returns (R : RandomSource) (E : Env)
    alpha gamma epsilon n w g :
  (∀ a w', (step E a w').1.2 = false) → 0 < n →
  ∀ fuel r,
    sarsa R E fuel alpha gamma epsilon n w g ≠ Ok r ∧
    qlearning R E fuel alpha gamma epsilon n w g ≠ Ok r ∧
    double_qlearning R E fuel alpha gamma epsilon n w g ≠ Ok r.
Proof.
  intros Hnever Hn fuel r.
  unfold sarsa, qlearning, double_qlearning, double_tables.
  rewrite py_range_pos by done.
  destruct (zero_value E) as [Q0| |]; simpl; [|done..].
  assert (∀ t (r0 r1 : run R E table),
    sarsa_episode R E fuel alpha gamma epsilon t r0 ≠ Ok r1) as Hs.
  { intros t r0 r1. unfold sarsa_episode.
    destruct (reset E (wld r0)) as [state w0].
    destruct (egreedy_policy _ _ _ _ _) as [[a g0]| |]; simpl; [|done..].
    destruct (while_true _ _ _) as [v| |] eqn:Hloop; simpl; [|done..].
    exfalso. apply while_true_never in Hloop; [done|].
    intros v0 v1 Hbody. apply sarsa_body_Ok in Hbody
      as (? & ? & ? & ? & ? & ? & ? & Hstep & _).
    specialize (Hnever (sv_action v0) (wld (sv_run v0))).
    by rewrite Hstep in Hnever. }
  assert (∀ t (r0 r1 : run R E table),
    qlearning_episode R E fuel alpha gamma epsilon t r0 ≠ Ok r1) as Hq.
  { intros t r0 r1. unfold qlearning_episode.
    destruct (reset E (wld r0)) as [state w0].
    destruct (while_true _ _ _) as [v| |] eqn:Hloop; simpl; [|done..].
    exfalso. apply while_true_never in Hloop; [done|].
    intros v0 v1 Hbody. apply qlearning_body_Ok in Hbody
      as (a & ? & ? & ? & ? & ? & ? & ? & ? & _ & Hstep & _).
    specialize (Hnever a (wld (qv_run v0))).
    by rewrite Hstep in Hnever. }
  assert (∀ t (r0 r1 : run R E (table * table)),
    double_episode R E fuel alpha gamma epsilon t r0 ≠ Ok r1) as Hd.
  { intros t r0 r1. unfold double_episode.
    destruct (reset E (wld r0)) as [state w0].
    destruct (while_true _ _ _) as [v| |] eqn:Hloop; simpl; [|done..].
    exfalso. apply while_true_never in Hloop; [done|].
    intros v0 v1 Hbody. apply double_body_Ok in Hbody
      as (a & ? & ? & ? & ? & ? & ? & ? & ? & ? & _ & Hstep & _).
    specialize (Hnever a (wld (qv_run v0))).
    by rewrite Hstep in Hnever. }
  split_and!.
  - destruct (sarsa_episode _ _ _ _ _ _ _ _) as [r1| |] eqn:H1; simpl;
      [by destruct (Hs _ _ _ H1)|done..].
  - destruct (qlearning_episode _ _ _ _ _ _ _ _) as [r1| |] eqn:H1; simpl;
      [by destruct (Hq _ _ _ H1)|done..].
  - destruct (double_episode _ _ _ _ _ _ _ _) as [r1| |] eqn:H1; simpl;
      [by destruct (Hd _ _ _ H1)|done..].
Qed.

Lemma never_done_never_returns_witness :
  (¬ ∃ r, sarsa lcg treadmill 5 (1 / 2) 1 (1 / 2) 1 () 42 = Ok r) ∧
  (¬ ∃ r, qlearning lcg treadmill 5 (1 / 2) 1 (1 / 2) 1 () 42 = Ok r) ∧
  (¬ ∃ r, double_qlearning lcg treadmill 5 (1 / 2) 1 (1 / 2) 1 () 42 = Ok r).
Proof.
  split_and!; intros [r Hr];
    destruct (never_done_never_returns lcg treadmill (1 / 2) 1 (1 / 2) 1 () 42
                ltac:(reflexivity) ltac:(lia) 5%nat r) as (Hs & Hq & Hd);
    [exact (Hs Hr)|exact (Hq Hr)|exact (Hd Hr)].
Defined.

Lemma egreedy_policy_IndexError (R : RandomSource) (Q : table) s epsilon g :
  ¬ in_bounds (length Q) s →
  egreedy_policy R s Q epsilon g = Raise IndexError.
Proof.
  intros Hs%py_get_out_of_bounds. unfold egreedy_policy.
  destruct (draw R g) as [random g1]. rewrite Hs. by case_decide.
Qed.

(** X14. If [reset] hands out a state that is no row of the table, the first
    episode fails with [IndexError] at its first action choice, in all three
    algorithms, before the environment is stepped. *)
Theorem stray_reset_raises (R : RandomSource) (E : Env) fuel
    alpha gamma epsilon n w g :
  0 ≤ nS E → 0 ≤ nA E → 0 < n →
  ¬ in_bounds (Z.to_nat (nS E)) (reset E w).1 →
  sarsa R E (S fuel) alpha gamma epsilon n w g = Raise IndexError ∧
  qlearning R E (S fuel) alpha gamma epsilon n w g = Raise IndexError ∧
  double_qlearning R E (S fuel) alpha gamma epsilon n w g = Raise IndexError.
Proof.
  intros HS HA Hn Hstray.
  destruct (np_zeros_shaped (nS E) (nA E) HS HA) as (Q0 & HQ0 & Hrows & _).
  unfold sarsa, qlearning, double_qlearning, double_tables, zero_value.
  rewrite HQ0, py_range_pos by done. simpl.
  unfold sarsa_episode, qlearning_episode, double_episode. simpl.
  destruct (reset E w) as [state w0]. simpl in *.
  unfold qlearning_body, double_body. simpl.
  rewrite !egreedy_policy_IndexError; [done|..].
  - unfold table_add. by rewrite length_zip_with, Hrows, Nat.min_id.
  - by rewrite Hrows.
Qed.

Lemma stray_reset_raises_witness :
  sarsa lcg stray 3 (1 / 2) 1 (1 / 2) 2 () 42 = Raise IndexError ∧
  qlearning lcg stray 3 (1 / 2) 1 (1 / 2) 2 () 42 = Raise IndexError ∧
  double_qlearning lcg stray 3 (1 / 2) 1 (1 / 2) 2 () 42 = Raise IndexError.
Proof.
  apply (stray_reset_raises lcg stray 2 (1 / 2) 1 (1 / 2) 2 () 42);
    [simpl; lia..|].
  unfold in_bounds. simpl. lia.
Defined.

(** ** SARSA and Q-learning under a greedy policy *)

(** X15. With [epsilon = 0] the action SARSA chooses for the next state is the
    first maximum of that state's row, so the update of a SARSA round is the
    Q-learning update: the target is [reward] plus [gamma] times the row's
    maximum. *)
Theorem sarsa_greedy_update_is_qlearning (R : RandomSource) (E : Env)
    alpha gamma t (v : sarsa_vars R E) d v' :
  sarsa_body R E alpha gamma 0 t v = Ok (d, v') →
  ∃ reward r_next k m,
    step E (sv_action v) (wld (sv_run v))
      = (sv_state v', reward, d, wld (sv_run v')) ∧
    py_get (tbl (sv_run v)) (sv_state v') = Ok r_next ∧
    first_max r_next k m ∧
    sv_action v' = Z.of_nat k ∧
    td_updated (tbl (sv_run v)) (tbl (sv_run v')) (sv_state v) (sv_action v)
      alpha (reward + gamma * m)%Qc.
Proof.
  intros Hbody. apply sarsa_body_Ok in Hbody
    as (s' & reward & w & a' & g' & Q' & rewards & Hstep & Hpol & HQ & _ & ->).
  apply egreedy_policy_Ok in Hpol as (r_next & Hr & _ & Hcase).
  destruct Hcase as [(Hlt & _)|(_ & _ & k & m & -> & Hmax)].
  { by destruct (draw_not_neg R (rnd (sv_run v))). }
  apply td_assign_updated in HQ as (boot & Hboot & Hupd).
  assert (boot = m) as ->.
  { unfold table_get in Hboot. rewrite Hr in Hboot. simpl in Hboot.
    destruct Hmax as [Hk _].
    rewrite (py_get_nonneg r_next (Z.of_nat k) m) in Hboot; [congruence|lia|].
    by rewrite Nat2Z.id. }
  by exists reward, r_next, k, m.
Qed.

Lemma sarsa_greedy_update_is_qlearning_witness :
  ∃ d v',
    sarsa_body lcg two_state (1 / 2) 1 0 0 sarsa_last_round = Ok (d, v') ∧
    ∃ reward r_next k m,
      step two_state 0 0 = (sv_state v', reward, d, wld (sv_run v')) ∧
      py_get (tbl (sv_run sarsa_last_round)) (sv_state v') = Ok r_next ∧
      first_max r_next k m ∧
      sv_action v' = Z.of_nat k ∧
      td_updated (tbl (sv_run sarsa_last_round)) (tbl (sv_run v')) 0 0
        (1 / 2) (reward + 1 * m)%Qc.
Proof.
  eexists _, _. split; [reflexivity|].
  apply (sarsa_greedy_update_is_qlearning lcg two_state (1 / 2) 1 0
           sarsa_last_round). reflexivity.
Defined.
